(** * getSpec: the change-aware fetcher of openapi-ts

    A shallow embedding of [packages/openapi-ts/src/getSpec.ts] and the
    properties of its watch-mode revalidation logic.

    The function is asynchronous and talks to the network through
    [sendRequest]; the embedding threads an explicit state (the caller-owned
    watch values, the state of the outside world, and a log of every
    transport exchange) through the two request phases.  The optional hooks
    [onPreRequest] and [onPostRequest] are left unset, so the optional calls
    [onPreRequest?.(...)] and [onPostRequest?.(...)] do nothing; the time
    stamps taken for them are not modelled. *)

From Stdlib Require Import ZArith String Ascii Strings.Byte List Bool Lia.
From stdpp Require Import base decidable option list gmap strings.
Import ListNotations.

Local Open Scope string_scope.
Local Open Scope Z_scope.
Local Open Scope list_scope.

(** ** JavaScript values *)

(** Truthiness of a value of type [string | null | undefined]: absent values
    and the empty string are falsy. *)
Definition truthy (v : option string) : bool :=
  match v with
  | Some s => negb (bool_decide (s = ""))
  | None => false
  end.

(** Strict inequality [a !== b] on [string | null | undefined]. *)
Definition strict_ne (a b : option string) : bool :=
  negb (bool_decide (a = b)).

(** An [ArrayBuffer] is a sequence of bytes. *)
Abbreviation ArrayBuffer := (list byte).

(** ** Headers

    A [Headers] object maps case-insensitive names to values; names are
    normalised to lower case on every access. *)
Module Headers.

Definition lower_ascii (c : ascii) : ascii :=
  let n := nat_of_ascii c in
  if ((65 <=? n) && (n <=? 90))%nat then ascii_of_nat (n + 32) else c.

Fixpoint lower (s : string) : string :=
  match s with
  | EmptyString => EmptyString
  | String c s' => String (lower_ascii c) (lower s')
  end.

Abbreviation t := (gmap string string).

Definition get (h : t) (name : string) : option string :=
  h !! lower name.

Definition set (h : t) (name value : string) : t :=
  <[lower name := value]> h.

End Headers.

(** ** Responses, errors, requests *)

Module Response.

Record t := mk {
  status : Z;
  headers : Headers.t;
  body : option ArrayBuffer
}.

(** [response.ok]: the status is in the range 200-299. *)
Definition ok (r : t) : bool :=
  (200 <=? status r) && (status r <=? 299).

End Response.

(** The value caught when [sendRequest] rejects. *)
Record Error := { message : string }.

(** A member of an object that may be left out: the object has no such own
    property, has it with the value [undefined], or has it with a value.
    The spread copies every own property, an undefined one too. *)
Inductive Member (A : Type) :=
| absent
| undefined
| present (a : A).

Arguments absent {A}.
Arguments undefined {A}.
Arguments present {A} a.

(** What reading the member gives: [None] stands for [undefined]. *)
Definition read {A : Type} (m : Member A) : option A :=
  match m with
  | present a => Some a
  | absent | undefined => None
  end.

Module RequestInit.

(** The members of [RequestInit] that [getSpec] reads or writes; every
    other member travels unchanged inside the spread.  For [headers] an
    absent member and an undefined one give the same value wherever the
    function uses it, so one [None] stands for both. *)
Record t := mk {
  method : Member string;
  headers : option Headers.t
}.

(** Object spread [{ ...base, ...fetchOptions }]: members present in
    [fetchOptions] replace those of [base]. *)
Definition spread (base : t) (fetchOptions : option t) : t :=
  match fetchOptions with
  | None => base
  | Some o =>
      {| method := match method o with absent => method base | m => m end;
         headers := match headers o with Some h => Some h | None => headers base end |}
  end.

End RequestInit.

(** The argument of [sendRequest]. *)
Record Request := {
  fetchOptions : RequestInit.t;
  timeout : option Z;
  url : string
}.

(** ** Resolved inputs and watch values *)

Inductive InputType := file | json | url_.

#[global] Instance InputType_eq_dec : EqDecision InputType.
Proof. solve_decision. Defined.

Definition InputType_string (t : InputType) : string :=
  match t with
  | file => "file"
  | json => "json"
  | url_ => "url"
  end.

Record ResolvedInput := {
  path : string;
  type : InputType
}.

Module WatchValues.

Record t := mk {
  headers : Headers.t;
  isHeadMethodSupported : option bool;
  lastValue : option string
}.

End WatchValues.

(** ** Results: [SpecResponse | SpecError]

    The function returns object literals; the four members of the two
    result types are kept as optional fields, as in the source. *)

Inductive ErrorKind := not_modified | not_ok.

Record SpecResult := {
  arrayBuffer : option ArrayBuffer;
  error : option ErrorKind;
  resolvedInput : option ResolvedInput;
  response : option Response.t
}.

(** [{ error, response }] *)
Definition SpecError (e : ErrorKind) (r : Response.t) : SpecResult :=
  {| arrayBuffer := None; error := Some e; resolvedInput := None; response := Some r |}.

(** [{ arrayBuffer, resolvedInput }] *)
Definition SpecResponse (b : option ArrayBuffer) (i : ResolvedInput) : SpecResult :=
  {| arrayBuffer := b; error := None; resolvedInput := Some i; response := None |}.

(** The three outcomes, read off the members of a result. *)
Definition isContent (r : SpecResult) : Prop :=
  error r = None /\ is_Some (resolvedInput r) /\ response r = None.

Definition isNotModified (r : SpecResult) : Prop :=
  error r = Some not_modified /\ is_Some (response r) /\
  arrayBuffer r = None /\ resolvedInput r = None.

Definition isNotOk (r : SpecResult) : Prop :=
  error r = Some not_ok /\ is_Some (response r) /\
  arrayBuffer r = None /\ resolvedInput r = None.

(** ** Transport log

    Each call of [sendRequest] is logged with the call site that issued it
    (the HEAD probe of lines 64-72 or the GET fetch of lines 174-181; the
    hooks are told the same two names), the request and what came back. *)

Inductive Phase := HEAD | GET.

Record Exchange := {
  phase : Phase;
  request : Request;
  result : Error + Response.t
}.

(** The local variables of [getSpec] ([let arrayBuffer], [let hasChanged],
    [let response]); [hasChanged] signals whether the input has definitely
    changed. *)
Module Locals.

Record t := mk {
  arrayBuffer : option ArrayBuffer;
  hasChanged : option bool;
  response : option Response.t
}.

Definition init : t :=
  {| arrayBuffer := None; hasChanged := None; response := None |}.

End Locals.

(** Control flow inside the function body: a [return] statement was reached,
    or execution goes on with the current local variables. *)
Inductive Flow :=
| Return (r : SpecResult)
| Continue (v : Locals.t).

(** ** The function *)

Section GetSpec.

(** [World] is the state of everything outside the process (servers,
    network); [sendRequest] is the transport of
    [@hey-api/json-schema-ref-parser]: it resolves with a response or rejects
    with an error, and the world moves on. *)
Context {World : Type}.
Variable sendRequest : Request -> World -> (Error + Response.t) * World.

(** [mergeHeaders] of the client-fetch bundle, which is not part of the
    verified file: it builds one [Headers] object from its arguments. *)
Variable mergeHeaders : list (option Headers.t) -> Headers.t.

(** [getResolvedInput] turns the configured input path into a resolved
    input. *)
Context {InputPath : Type}.
Variable getResolvedInput : InputPath -> ResolvedInput.

(** [new TextDecoder().decode(buffer)], and the encoding of a string body
    given to the [Response] constructor. *)
Variable decode : ArrayBuffer -> string.
Variable encode : string -> ArrayBuffer.

(** [new Response(text)]: status 200 with a text body. *)
Definition new_Response (text : string) : Response.t :=
  {| Response.status := 200;
     Response.headers := {[ "content-type" := "text/plain;charset=UTF-8" ]};
     Response.body := Some (encode text) |}.

(** The state threaded through a call: the watch values (mutated in place
    by the source), the world, and the log of transport exchanges. *)
Record State := {
  watch : WatchValues.t;
  world : World;
  log : list Exchange
}.

Definition send (p : Phase) (req : Request) (s : State)
  : (Error + Response.t) * State :=
  let '(res, w) := sendRequest req (world s) in
  (res, {| watch := watch s; world := w;
           log := log s ++ [ {| phase := p; request := req; result := res |} ] |}).

Definition update_watch (f : WatchValues.t -> WatchValues.t) (s : State) : State :=
  {| watch := f (watch s); world := world s; log := log s |}.

(** [watch.isHeadMethodSupported = v] *)
Definition set_isHeadMethodSupported (v : bool) (w : WatchValues.t) : WatchValues.t :=
  {| WatchValues.headers := WatchValues.headers w;
     WatchValues.isHeadMethodSupported := Some v;
     WatchValues.lastValue := WatchValues.lastValue w |}.

(** [watch.headers.set(name, value)] *)
Definition set_header (name value : string) (w : WatchValues.t) : WatchValues.t :=
  {| WatchValues.headers := Headers.set (WatchValues.headers w) name value;
     WatchValues.isHeadMethodSupported := WatchValues.isHeadMethodSupported w;
     WatchValues.lastValue := WatchValues.lastValue w |}.

(** [watch.lastValue = v] *)
Definition set_lastValue (v : string) (w : WatchValues.t) : WatchValues.t :=
  {| WatchValues.headers := WatchValues.headers w;
     WatchValues.isHeadMethodSupported := WatchValues.isHeadMethodSupported w;
     WatchValues.lastValue := Some v |}.

(** [fetchOptions?.headers] *)
Definition headers_of (fetchOptions : option RequestInit.t) : option Headers.t :=
  match fetchOptions with
  | Some o => RequestInit.headers o
  | None => None
  end.

(** The request of the HEAD probe (lines 53 and 64-72):
    [{ method: 'HEAD', ...fetchOptions, headers: requestHeaders }]. *)
Definition headRequest (fetchOptions : option RequestInit.t) (timeout : option Z)
    (path : string) (watchHeaders : Headers.t) : Request :=
  let requestHeaders := mergeHeaders [headers_of fetchOptions; Some watchHeaders] in
  {| fetchOptions :=
       {| RequestInit.method :=
            RequestInit.method
              (RequestInit.spread
                 {| RequestInit.method := present "HEAD"; RequestInit.headers := None |}
                 fetchOptions);
          RequestInit.headers := Some requestHeaders |};
     timeout := timeout;
     url := path |}.

(** The request of the GET fetch (lines 174-181):
    [{ method: 'GET', ...fetchOptions }]. *)
Definition getRequest (fetchOptions : option RequestInit.t) (timeout : option Z)
    (path : string) : Request :=
  {| fetchOptions :=
       RequestInit.spread
         {| RequestInit.method := present "GET"; RequestInit.headers := None |}
         fetchOptions;
     timeout := timeout;
     url := path |}.

(** Lines 132-140: the entity tag of the response against the stored
    [If-None-Match]. *)
Definition checkETag (response : Response.t) (hasChanged : option bool)
    (w : WatchValues.t) : option bool * WatchValues.t :=
  match hasChanged with
  | None =>
      let eTag := Headers.get (Response.headers response) "ETag" in
      match eTag with
      | Some value =>
          if truthy eTag then
            let changed :=
              strict_ne eTag (Headers.get (WatchValues.headers w) "If-None-Match") in
            (Some changed, if changed then set_header "If-None-Match" value w else w)
          else (None, w)
      | None => (None, w)
      end
  | Some _ => (hasChanged, w)
  end.

(** Lines 142-151: the modification date of the response against the stored
    [If-Modified-Since]. *)
Definition checkLastModified (response : Response.t) (hasChanged : option bool)
    (w : WatchValues.t) : option bool * WatchValues.t :=
  match hasChanged with
  | None =>
      let lastModified := Headers.get (Response.headers response) "Last-Modified" in
      match lastModified with
      | Some value =>
          if truthy lastModified then
            let changed :=
              strict_ne lastModified
                (Headers.get (WatchValues.headers w) "If-Modified-Since") in
            (Some changed, if changed then set_header "If-Modified-Since" value w else w)
          else (None, w)
      | None => (None, w)
      end
  | Some _ => (hasChanged, w)
  end.

(** Lines 111-160: what the function does with the response of the probe
    (the test [if (response)] of line 111 always succeeds: [response] was
    assigned at line 91). *)
Definition afterHead (response : Response.t) (v : Locals.t) (s : State)
  : Flow * State :=
  if negb (Response.ok response)
     && bool_decide (WatchValues.isHeadMethodSupported (watch s) = Some true)
  then (Return (SpecError not_ok response), s)
  else
    let s :=
      match WatchValues.isHeadMethodSupported (watch s) with
      | None => update_watch (set_isHeadMethodSupported (Response.ok response)) s
      | Some _ => s
      end in
    if Response.status response =? 304
    then (Return (SpecError not_modified response), s)
    else
      let '(hasChanged, w) := checkETag response (Locals.hasChanged v) (watch s) in
      let '(hasChanged, w) := checkLastModified response hasChanged w in
      let s := update_watch (fun _ => w) s in
      if bool_decide (hasChanged = Some false)
      then (Return (SpecError not_modified response), s)
      else
        (Continue {| Locals.arrayBuffer := Locals.arrayBuffer v;
                     Locals.hasChanged := hasChanged;
                     Locals.response := Some response |}, s).

(** Lines 52-161: the HEAD probe, not sent on the first run or when the
    method is known to be unsupported. *)
Definition headProbe (fetchOptions : option RequestInit.t) (timeout : option Z)
    (path : string) (v : Locals.t) (s : State) : Flow * State :=
  if truthy (WatchValues.lastValue (watch s))
     && negb (bool_decide (WatchValues.isHeadMethodSupported (watch s) = Some false))
  then
    let '(res, s) :=
      send HEAD (headRequest fetchOptions timeout path (WatchValues.headers (watch s))) s in
    match res with
    | inr response =>
        if 300 <=? Response.status response
        then (Return (SpecError not_ok response), s)
        else afterHead response v s
    | inl error =>
        (Return (SpecError not_ok (new_Response (message error))), s)
    end
  else (Continue v, s).

(** Lines 163-239: the GET fetch and the comparison of contents.  The merged
    [requestHeaders] of line 164 go to the hooks only; the request itself
    carries [fetchOptions] as it is.  Reading the body is taken to
    succeed. *)
Definition getFetch (fetchOptions : option RequestInit.t) (timeout : option Z)
    (path : string) (v : Locals.t) (s : State) : Flow * State :=
  let '(res, s) := send GET (getRequest fetchOptions timeout path) s in
  match res with
  | inr response =>
      if 300 <=? Response.status response
      then (Return (SpecError not_ok response), s)
      else if negb (Response.ok response)
      then (Return (SpecError not_ok response), s)
      else
        let arrayBuffer :=
          match Response.body response with
          | Some bytes => bytes
          | None => []
          end in
        match Locals.hasChanged v with
        | None =>
            let content := decode arrayBuffer in
            let changed := strict_ne (Some content) (WatchValues.lastValue (watch s)) in
            (Continue {| Locals.arrayBuffer := Some arrayBuffer;
                         Locals.hasChanged := Some changed;
                         Locals.response := Some response |},
             update_watch (set_lastValue content) s)
        | Some _ =>
            (Continue {| Locals.arrayBuffer := Some arrayBuffer;
                         Locals.hasChanged := Locals.hasChanged v;
                         Locals.response := Some response |}, s)
        end
  | inl error =>
      (Return (SpecError not_ok (new_Response (message error))), s)
  end.

(** Lines 241-243: files and raw data. *)
Definition notUrl (input : ResolvedInput) (v : Locals.t) (s : State)
  : Flow * State :=
  let lastValue :=
    if negb (truthy (WatchValues.lastValue (watch s)))
    then Some (InputType_string (type input))
    else WatchValues.lastValue (watch s) in
  let s :=
    update_watch
      (fun w => {| WatchValues.headers := WatchValues.headers w;
                   WatchValues.isHeadMethodSupported := WatchValues.isHeadMethodSupported w;
                   WatchValues.lastValue := lastValue |}) s in
  (Continue {| Locals.arrayBuffer := Locals.arrayBuffer v;
               Locals.hasChanged :=
                 if truthy (WatchValues.lastValue (watch s)) then Some false else None;
               Locals.response := Locals.response v |}, s).

(** Lines 246-254: the final [return]. *)
Definition finish (input : ResolvedInput) (v : Locals.t) : SpecResult :=
  match Locals.response v with
  | Some response =>
      if bool_decide (Locals.hasChanged v = Some false)
      then SpecError not_modified response
      else SpecResponse (Locals.arrayBuffer v) input
  | None => SpecResponse (Locals.arrayBuffer v) input
  end.

Definition getSpec (fetchOptions : option RequestInit.t) (inputPath : InputPath)
    (timeout : option Z) (s : State) : SpecResult * State :=
  let resolvedInput := getResolvedInput inputPath in
  let '(flow, s) :=
    match type resolvedInput with
    | url_ =>
        match headProbe fetchOptions timeout (path resolvedInput) Locals.init s with
        | (Continue v, s) => getFetch fetchOptions timeout (path resolvedInput) v s
        | (Return r, s) => (Return r, s)
        end
    | _ => notUrl resolvedInput Locals.init s
    end in
  match flow with
  | Return r => (r, s)
  | Continue v => (finish resolvedInput v, s)
  end.

End GetSpec.

Arguments getSpec {World} sendRequest mergeHeaders {InputPath} getResolvedInput
  decode encode fetchOptions inputPath timeout s.
Arguments State World : clear implicits.

(** ** A scripted environment

    Concrete collaborators on which the function can be run: the world is
    the list of answers the transport will still give. *)

Definition Script := list (Error + Response.t).

Definition scripted (req : Request) (w : Script) : (Error + Response.t) * Script :=
  match w with
  | answer :: rest => (answer, rest)
  | [] => (inl {| message := "fetch failed" |}, [])
  end.

(** Later arguments win, absent arguments are skipped. *)
Definition merge_union (hs : list (option Headers.t)) : Headers.t :=
  fold_left (fun acc h => match h with Some m => m ∪ acc | None => acc end) hs ∅.

(** Paths starting with [http] are URLs, everything else is a file. *)
Definition resolve_path (p : string) : ResolvedInput :=
  {| path := p; type := if String.prefix "http" p then url_ else file |}.

Definition poll (fetchOptions : option RequestInit.t) (inputPath : string)
    (s : State Script) : SpecResult * State Script :=
  getSpec scripted merge_union resolve_path string_of_list_byte list_byte_of_string
    fetchOptions inputPath None s.

(** A fresh watch session. *)
Definition fresh (answers : Script) : State Script :=
  {| watch := {| WatchValues.headers := ∅;
                 WatchValues.isHeadMethodSupported := None;
                 WatchValues.lastValue := None |};
     world := answers;
     log := [] |}.

(** A session under way. *)
Definition watching (headers : Headers.t) (isHeadMethodSupported : option bool)
    (lastValue : option string) (answers : Script) : State Script :=
  {| watch := {| WatchValues.headers := headers;
                 WatchValues.isHeadMethodSupported := isHeadMethodSupported;
                 WatchValues.lastValue := lastValue |};
     world := answers;
     log := [] |}.

Definition plain (status : Z) (text : string) : Response.t :=
  {| Response.status := status; Response.headers := ∅;
     Response.body := Some (list_byte_of_string text) |}.

Definition tagged (status : Z) (eTag : string) (text : string) : Response.t :=
  {| Response.status := status; Response.headers := {[ "etag" := eTag ]};
     Response.body := Some (list_byte_of_string text) |}.

(** The condition of line 52: the probe is sent when a previous value is
    known and HEAD is not known to be unsupported. *)
Definition probing (w : WatchValues.t) : bool :=
  truthy (WatchValues.lastValue w)
  && negb (bool_decide (WatchValues.isHeadMethodSupported w = Some false)).

(** A response carries a validator when the header is present and not
    empty (the test [if (eTag)] of the source). *)
Definition carries (r : Response.t) (name : string) : bool :=
  truthy (Headers.get (Response.headers r) name).

(** The [method] member of the request handed to the transport. *)
Definition wire_method (e : Exchange) : option string :=
  read (RequestInit.method (fetchOptions (request e))).

(** The method a request goes out with: [fetch] sends GET when the member
    is undefined. *)
Definition sent_method (req : Request) : string :=
  default "GET" (read (RequestInit.method (fetchOptions req))).

(** The state after one logged transport exchange. *)
Definition logged {World : Type} (s : State World) (p : Phase) (req : Request)
    (res : Error + Response.t) (w : World) : State World :=
  {| watch := watch s; world := w;
     log := log s ++ [ {| phase := p; request := req; result := res |} ] |}.

(** Lines 121-123: HEAD support is recorded only while it is unknown. *)
Definition record_support (r : Response.t) (w : WatchValues.t) : WatchValues.t :=
  match WatchValues.isHeadMethodSupported w with
  | None => set_isHeadMethodSupported (Response.ok r) w
  | Some _ => w
  end.

(** Lines 132-151 in one step: the entity tag first, the modification date
    second. *)
Definition validators (r : Response.t) (w : WatchValues.t)
  : option bool * WatchValues.t :=
  let '(hasChanged, w1) := checkETag r None w in
  checkLastModified r hasChanged w1.

(** The validators of a probe response settle that the input has not
    changed: it carries an entity tag equal to the stored [If-None-Match],
    or no entity tag and a modification date equal to the stored
    [If-Modified-Since]. *)
Definition unchanged_by_validators (r : Response.t) (w : WatchValues.t) : Prop :=
  (carries r "ETag" = true /\
   Headers.get (Response.headers r) "ETag"
     = Headers.get (WatchValues.headers w) "If-None-Match") \/
  (carries r "ETag" = false /\ carries r "Last-Modified" = true /\
   Headers.get (Response.headers r) "Last-Modified"
     = Headers.get (WatchValues.headers w) "If-Modified-Since").

Definition with_watch {World : Type} (w : WatchValues.t) (s : State World)
  : State World :=
  {| watch := w; world := world s; log := log s |}.

(** [response.body ? await response.arrayBuffer() : new ArrayBuffer(0)] *)
Definition bytes_of (r : Response.t) : ArrayBuffer :=
  match Response.body r with
  | Some bytes => bytes
  | None => []
  end.

(** Lines 234-238 and 246-254 once a fetch has succeeded without a verdict
    from the validators: the decoded body against the previous value. *)
Definition by_content (decode : ArrayBuffer -> string) (rg : Response.t)
    (lastValue : option string) (input : ResolvedInput) : SpecResult :=
  if strict_ne (Some (decode (bytes_of rg))) lastValue
  then SpecResponse (Some (bytes_of rg)) input
  else SpecError not_modified rg.

(** [fetchOptions?.method] *)
Definition method_of (fetchOptions : option RequestInit.t) : option string :=
  match fetchOptions with
  | Some o => read (RequestInit.method o)
  | None => None
  end.

(** The [method] member of [fetchOptions], absent when there are no
    options. *)
Definition method_member (fetchOptions : option RequestInit.t) : Member string :=
  match fetchOptions with
  | Some o => RequestInit.method o
  | None => absent
  end.

(** A watch session: consecutive calls on the same state. *)
Fixpoint session {St Call Res : Type} (step : Call -> St -> Res * St)
    (calls : list Call) (s : St) : St :=
  match calls with
  | [] => s
  | c :: rest => session step rest (snd (step c s))
  end.

(** Exactly one of the three outcomes is populated. *)
Definition exactly_one_outcome (res : SpecResult) : Prop :=
  (isContent res /\ ~ isNotModified res /\ ~ isNotOk res) \/
  (isNotModified res /\ ~ isContent res /\ ~ isNotOk res) \/
  (isNotOk res /\ ~ isContent res /\ ~ isNotModified res).

(** The transport exchanges that end a call with the not-ok result: the
    request was rejected, or answered with a status of 300 or more, or
    answered with a not-ok status to the GET fetch, or answered with a
    not-ok status to the probe of a server whose HEAD support was recorded
    ([w] holds the watch values at the start of the call). *)
Definition failed (w : WatchValues.t) (e : Exchange) : Prop :=
  match result e with
  | inl _ => True
  | inr r =>
      300 <= Response.status r \/
      (Response.ok r = false /\
       (phase e = GET \/ WatchValues.isHeadMethodSupported w = Some true))
  end.

(** No validator in what the transport returned. *)
Definition plain_exchange (e : Exchange) : Prop :=
  match result e with
  | inr r => carries r "ETag" = false /\ carries r "Last-Modified" = false
  | inl _ => True
  end.

(** The exchanges [new] of one call fetched [rg] from a server that supplies
    no validators: the last exchange is the GET fetch, answered by the ok
    response [rg], and no earlier response of the call carried a validator. *)
Definition fetched_plain (new : list Exchange) (rg : Response.t) : Prop :=
  exists pre req,
    new = pre ++ [ {| phase := GET; request := req; result := inr rg |} ] /\
    Response.ok rg = true /\
    Forall plain_exchange pre.

(** ** The outcomes of the probe

    The ways through lines 52-161, as a relation between the state at the
    start of a call and what [headProbe] hands on. *)

Section Outcomes.

Context {World : Type}.
Variable sendRequest : Request -> World -> (Error + Response.t) * World.
Variable mergeHeaders : list (option Headers.t) -> Headers.t.
Variable encode : string -> ArrayBuffer.

Variables (fo : option RequestInit.t) (t : option Z) (p : string).

Inductive probe_outcome (s : State World) : Flow * State World -> Prop :=
| probe_not_sent :
    probing (watch s) = false ->
    probe_outcome s (Continue Locals.init, s)
| probe_failed e w :
    probing (watch s) = true ->
    sendRequest (headRequest mergeHeaders fo t p (WatchValues.headers (watch s)))
      (world s) = (inl e, w) ->
    probe_outcome s
      (Return (SpecError not_ok (new_Response encode (message e))),
       logged s HEAD (headRequest mergeHeaders fo t p (WatchValues.headers (watch s)))
         (inl e) w)
| probe_refused r w :
    probing (watch s) = true ->
    sendRequest (headRequest mergeHeaders fo t p (WatchValues.headers (watch s)))
      (world s) = (inr r, w) ->
    300 <= Response.status r ->
    probe_outcome s
      (Return (SpecError not_ok r),
       logged s HEAD (headRequest mergeHeaders fo t p (WatchValues.headers (watch s)))
         (inr r) w)
| probe_regressed r w :
    probing (watch s) = true ->
    sendRequest (headRequest mergeHeaders fo t p (WatchValues.headers (watch s)))
      (world s) = (inr r, w) ->
    Response.status r < 300 ->
    Response.ok r = false ->
    WatchValues.isHeadMethodSupported (watch s) = Some true ->
    probe_outcome s
      (Return (SpecError not_ok r),
       logged s HEAD (headRequest mergeHeaders fo t p (WatchValues.headers (watch s)))
         (inr r) w)
| probe_unchanged r w :
    probing (watch s) = true ->
    sendRequest (headRequest mergeHeaders fo t p (WatchValues.headers (watch s)))
      (world s) = (inr r, w) ->
    Response.status r < 300 ->
    Response.ok r = true \/ WatchValues.isHeadMethodSupported (watch s) <> Some true ->
    unchanged_by_validators r (watch s) ->
    probe_outcome s
      (Return (SpecError not_modified r),
       with_watch (record_support r (watch s))
         (logged s HEAD
            (headRequest mergeHeaders fo t p (WatchValues.headers (watch s)))
            (inr r) w))
| probe_changed r w w1 :
    probing (watch s) = true ->
    sendRequest (headRequest mergeHeaders fo t p (WatchValues.headers (watch s)))
      (world s) = (inr r, w) ->
    Response.status r < 300 ->
    Response.ok r = true \/ WatchValues.isHeadMethodSupported (watch s) <> Some true ->
    carries r "ETag" = true \/ carries r "Last-Modified" = true ->
    validators r (record_support r (watch s)) = (Some true, w1) ->
    probe_outcome s
      (Continue {| Locals.arrayBuffer := None;
                   Locals.hasChanged := Some true;
                   Locals.response := Some r |},
       with_watch w1
         (logged s HEAD
            (headRequest mergeHeaders fo t p (WatchValues.headers (watch s)))
            (inr r) w))
| probe_undetermined r w :
    probing (watch s) = true ->
    sendRequest (headRequest mergeHeaders fo t p (WatchValues.headers (watch s)))
      (world s) = (inr r, w) ->
    Response.status r < 300 ->
    Response.ok r = true \/ WatchValues.isHeadMethodSupported (watch s) <> Some true ->
    carries r "ETag" = false ->
    carries r "Last-Modified" = false ->
    probe_outcome s
      (Continue {| Locals.arrayBuffer := None;
                   Locals.hasChanged := None;
                   Locals.response := Some r |},
       with_watch (record_support r (watch s))
         (logged s HEAD
            (headRequest mergeHeaders fo t p (WatchValues.headers (watch s)))
            (inr r) w)).

End Outcomes.

(** ** The outcomes of the fetch

    The ways through lines 163-239, from the local variables [v] and the
    state [s] the probe handed on. *)

Section FetchOutcomes.

Context {World : Type}.
Variable sendRequest : Request -> World -> (Error + Response.t) * World.
Variable decode : ArrayBuffer -> string.
Variable encode : string -> ArrayBuffer.

Variables (fo : option RequestInit.t) (t : option Z) (p : string).

Inductive fetch_outcome (v : Locals.t) (s : State World)
  : Flow * State World -> Prop :=
| fetch_failed e w :
    sendRequest (getRequest fo t p) (world s) = (inl e, w) ->
    fetch_outcome v s
      (Return (SpecError not_ok (new_Response encode (message e))),
       logged s GET (getRequest fo t p) (inl e) w)
| fetch_not_ok rg w :
    sendRequest (getRequest fo t p) (world s) = (inr rg, w) ->
    Response.ok rg = false ->
    fetch_outcome v s
      (Return (SpecError not_ok rg), logged s GET (getRequest fo t p) (inr rg) w)
| fetch_compared rg w :
    sendRequest (getRequest fo t p) (world s) = (inr rg, w) ->
    Response.ok rg = true ->
    Locals.hasChanged v = None ->
    fetch_outcome v s
      (Continue
         {| Locals.arrayBuffer := Some (bytes_of rg);
            Locals.hasChanged :=
              Some (strict_ne (Some (decode (bytes_of rg)))
                      (WatchValues.lastValue (watch s)));
            Locals.response := Some rg |},
       with_watch (set_lastValue (decode (bytes_of rg)) (watch s))
         (logged s GET (getRequest fo t p) (inr rg) w))
| fetch_decided rg w b :
    sendRequest (getRequest fo t p) (world s) = (inr rg, w) ->
    Response.ok rg = true ->
    Locals.hasChanged v = Some b ->
    fetch_outcome v s
      (Continue
         {| Locals.arrayBuffer := Some (bytes_of rg);
            Locals.hasChanged := Some b;
            Locals.response := Some rg |},
       logged s GET (getRequest fo t p) (inr rg) w).

End FetchOutcomes.

(** The exchanges a call added to the log. *)
Definition added {World : Type} (before after : State World) : list Exchange :=
  drop (length (log before)) (log after).

(** ** Polls of a server without validators *)

Section PlainPolls.

Context {World : Type}.
Variable sendRequest : Request -> World -> (Error + Response.t) * World.
Variable mergeHeaders : list (option Headers.t) -> Headers.t.

Variables (fo : option RequestInit.t) (t : option Z) (p : string).

(** What the transport answers to a call from [s] when the server supplies
    no validators and the poll returns the body of [rg]: the probe, if the
    call sends one, is answered with a status below 300 (not with a not-ok
    status by a server whose HEAD support was recorded) and carries neither
    entity tag nor modification date, and the fetch is answered with the ok
    response [rg]. *)
Definition plain_poll (s : State World) (rg : Response.t) : Prop :=
  if probing (watch s)
  then exists r w wg,
         sendRequest (headRequest mergeHeaders fo t p (WatchValues.headers (watch s)))
           (world s) = (inr r, w) /\
         Response.status r < 300 /\
         (Response.ok r = true \/
          WatchValues.isHeadMethodSupported (watch s) <> Some true) /\
         carries r "ETag" = false /\
         carries r "Last-Modified" = false /\
         sendRequest (getRequest fo t p) w = (inr rg, wg) /\
         Response.ok rg = true
  else exists wg,
         sendRequest (getRequest fo t p) (world s) = (inr rg, wg) /\
         Response.ok rg = true.

End PlainPolls.

(** A decoder for the examples: bytes below 128 are the characters they
    encode, every other byte becomes the replacement character U+FFFD, as
    [TextDecoder] does with bytes that cannot belong to a UTF-8 sequence
    (xfe, xff). *)
Definition replacement_character : string :=
  String (ascii_of_nat 239) (String (ascii_of_nat 191) (String (ascii_of_nat 189) "")).

Fixpoint decode_replacing (bytes : ArrayBuffer) : string :=
  match bytes with
  | [] => ""
  | b :: rest =>
      (if (Byte.to_nat b <? 128)%nat
       then String (ascii_of_byte b) ""
       else replacement_character) +:+ decode_replacing rest
  end.

Definition binary (status : Z) (bytes : ArrayBuffer) : Response.t :=
  {| Response.status := status; Response.headers := ∅;
     Response.body := Some bytes |}.

(** * Properties *)

Section Properties.

Context {World : Type}.
Variable sendRequest : Request -> World -> (Error + Response.t) * World.
Variable mergeHeaders : list (option Headers.t) -> Headers.t.
Context {InputPath : Type}.
Variable getResolvedInput : InputPath -> ResolvedInput.
Variable decode : ArrayBuffer -> string.
Variable encode : string -> ArrayBuffer.

Local Abbreviation run := (getSpec sendRequest mergeHeaders getResolvedInput decode encode).
Local Abbreviation probe := (headProbe sendRequest mergeHeaders encode).
Local Abbreviation fetch := (getFetch sendRequest decode encode).
Local Abbreviation St := (State World).

Implicit Types (s : St) (fo : option RequestInit.t) (ip : InputPath)
  (t : option Z) (r : Response.t).

(** ** Files and raw data *)

Lemma run_notUrl fo ip t s :
  type (getResolvedInput ip) <> url_ ->
  run fo ip t s =
    (SpecResponse None (getResolvedInput ip),
     with_watch
       {| WatchValues.headers := WatchValues.headers (watch s);
          WatchValues.isHeadMethodSupported :=
            WatchValues.isHeadMethodSupported (watch s);
          WatchValues.lastValue :=
            if negb (truthy (WatchValues.lastValue (watch s)))
            then Some (InputType_string (type (getResolvedInput ip)))
            else WatchValues.lastValue (watch s) |} s).
Proof.
  intros Hne. unfold getSpec, notUrl, finish, update_watch, with_watch.
  destruct (type (getResolvedInput ip)) eqn:E; try congruence; reflexivity.
Qed.

(** C1 (what the code does): for a file or raw input every call, the first
    one and every later one, returns the content result without a buffer and
    without a response, makes no transport call, and leaves the marker
    derived from the input type in [lastValue] when no truthy value was
    there; the not-modified result is never produced on this path. *)
Theorem notUrl_always_content fo ip t s :
  type (getResolvedInput ip) <> url_ ->
  fst (run fo ip t s) = SpecResponse None (getResolvedInput ip) /\
  ~ isNotModified (fst (run fo ip t s)) /\
  log (snd (run fo ip t s)) = log s /\
  world (snd (run fo ip t s)) = world s /\
  WatchValues.lastValue (watch (snd (run fo ip t s))) =
    (if truthy (WatchValues.lastValue (watch s))
     then WatchValues.lastValue (watch s)
     else Some (InputType_string (type (getResolvedInput ip)))).
Proof.
  intros Hne. rewrite (run_notUrl _ _ _ _ Hne). simpl.
  repeat split; auto.
  - intros (He & _); discriminate He.
  - destruct (truthy (WatchValues.lastValue (watch s))); reflexivity.
Qed.

(** ** The shape of a call on a URL *)

Lemma run_url fo ip t s :
  type (getResolvedInput ip) = url_ ->
  run fo ip t s =
    match probe fo t (path (getResolvedInput ip)) Locals.init s with
    | (Continue v, s1) =>
        match fetch fo t (path (getResolvedInput ip)) v s1 with
        | (Return r, s2) => (r, s2)
        | (Continue v', s2) => (finish (getResolvedInput ip) v', s2)
        end
    | (Return r, s1) => (r, s1)
    end.
Proof.
  intros E. unfold getSpec. rewrite E.
  destruct (probe _ _ _ _ _) as [[r|v] s1]; [reflexivity|].
  destruct (fetch _ _ _ _ _) as [[r|v'] s2]; reflexivity.
Qed.

Lemma probe_skipped fo t p v s :
  probing (watch s) = false -> probe fo t p v s = (Continue v, s).
Proof. unfold headProbe, probing. intros ->. reflexivity. Qed.

Lemma probe_error fo t p v s e w :
  probing (watch s) = true ->
  sendRequest (headRequest mergeHeaders fo t p (WatchValues.headers (watch s))) (world s)
    = (inl e, w) ->
  probe fo t p v s =
    (Return (SpecError not_ok (new_Response encode (message e))),
     logged s HEAD (headRequest mergeHeaders fo t p (WatchValues.headers (watch s)))
       (inl e) w).
Proof.
  unfold headProbe, probing, send. intros -> ->. reflexivity.
Qed.

Lemma probe_redirect_or_error_status fo t p v s r w :
  probing (watch s) = true ->
  sendRequest (headRequest mergeHeaders fo t p (WatchValues.headers (watch s))) (world s)
    = (inr r, w) ->
  300 <= Response.status r ->
  probe fo t p v s =
    (Return (SpecError not_ok r),
     logged s HEAD (headRequest mergeHeaders fo t p (WatchValues.headers (watch s)))
       (inr r) w).
Proof.
  unfold headProbe, probing, send. intros -> -> H.
  apply Z.leb_le in H. rewrite H. reflexivity.
Qed.

Lemma probe_answered fo t p v s r w :
  probing (watch s) = true ->
  sendRequest (headRequest mergeHeaders fo t p (WatchValues.headers (watch s))) (world s)
    = (inr r, w) ->
  Response.status r < 300 ->
  probe fo t p v s =
    afterHead r v
      (logged s HEAD (headRequest mergeHeaders fo t p (WatchValues.headers (watch s)))
         (inr r) w).
Proof.
  unfold headProbe, probing, send. intros -> -> H.
  apply Z.leb_gt in H. rewrite H. reflexivity.
Qed.

Lemma afterHead_frame r v s :
  world (snd (afterHead r v s)) = world s /\
  log (snd (afterHead r v s)) = log s.
Proof.
  unfold afterHead, update_watch.
  repeat (case_match; simpl); auto.
Qed.

Lemma fetch_log fo t p v s :
  exists res,
    log (snd (fetch fo t p v s)) =
      log s ++ [ {| phase := GET; request := getRequest fo t p; result := res |} ] /\
    fst (sendRequest (getRequest fo t p) (world s)) = res.
Proof.
  unfold getFetch, send, update_watch.
  destruct (sendRequest _ _) as [res w]. exists res.
  repeat (case_match; simpl); auto.
Qed.

(** What a call on a URL adds to the log: the fetch alone when the probe is
    skipped; the probe, followed or not by the fetch, otherwise. *)
Lemma run_url_log fo ip t s :
  type (getResolvedInput ip) = url_ ->
  let p := path (getResolvedInput ip) in
  let head res :=
    {| phase := HEAD;
       request := headRequest mergeHeaders fo t p (WatchValues.headers (watch s));
       result := res |} in
  let get res := {| phase := GET; request := getRequest fo t p; result := res |} in
  if probing (watch s)
  then exists res,
         log (snd (run fo ip t s)) = log s ++ [head res] \/
         exists res', log (snd (run fo ip t s)) = log s ++ [head res; get res']
  else exists res, log (snd (run fo ip t s)) = log s ++ [get res].
Proof.
  intros E p head get. rewrite (run_url _ _ _ _ E). fold p.
  destruct (probing (watch s)) eqn:Hp.
  - destruct (sendRequest (headRequest mergeHeaders fo t p (WatchValues.headers (watch s)))
                (world s)) as [[e|r] w] eqn:Hs.
    + exists (inl e). left. rewrite (probe_error _ _ _ _ _ _ _ Hp Hs). reflexivity.
    + exists (inr r). destruct (Z_lt_le_dec (Response.status r) 300) as [Hlt|Hge].
      * rewrite (probe_answered _ _ _ _ _ _ _ Hp Hs Hlt).
        destruct (afterHead_frame r Locals.init
                    (logged s HEAD (headRequest mergeHeaders fo t p
                       (WatchValues.headers (watch s))) (inr r) w)) as [_ Hl].
        destruct (afterHead _ _ _) as [[r'|v] s1]; simpl in *.
        -- left. exact Hl.
        -- right. destruct (fetch_log fo t p v s1) as (res' & Hf & _).
           exists res'. destruct (fetch _ _ _ _ _) as [[r2|v2] s2]; simpl in *;
             rewrite Hf, Hl, <- app_assoc; reflexivity.
      * left. rewrite (probe_redirect_or_error_status _ _ _ _ _ _ _ Hp Hs Hge).
        reflexivity.
  - rewrite (probe_skipped _ _ _ _ _ Hp).
    destruct (fetch_log fo t p Locals.init s) as (res & Hf & _). exists res.
    destruct (fetch _ _ _ _ _) as [[r2|v2] s2]; simpl in *; exact Hf.
Qed.

(** ** Probe answers with a status of 300 or more *)

Lemma run_probe_status_ge_300 fo ip t s r w :
  type (getResolvedInput ip) = url_ ->
  probing (watch s) = true ->
  sendRequest
    (headRequest mergeHeaders fo t (path (getResolvedInput ip))
       (WatchValues.headers (watch s))) (world s) = (inr r, w) ->
  300 <= Response.status r ->
  run fo ip t s =
    (SpecError not_ok r,
     logged s HEAD
       (headRequest mergeHeaders fo t (path (getResolvedInput ip))
          (WatchValues.headers (watch s))) (inr r) w).
Proof.
  intros E Hp Hs Hge. rewrite (run_url _ _ _ _ E).
  rewrite (probe_redirect_or_error_status _ _ _ _ _ _ _ Hp Hs Hge). reflexivity.
Qed.

(** C2 (what the code does): when the first probe of a source is answered
    with status 404, the call returns the not-ok result with that response,
    but the watch values are left as they were: [isHeadMethodSupported] is
    still unknown (it does not become [false]), and every later call with
    that state sends the HEAD probe again. *)
Theorem probe_404_leaves_support_unknown fo ip t s r w :
  type (getResolvedInput ip) = url_ ->
  probing (watch s) = true ->
  WatchValues.isHeadMethodSupported (watch s) = None ->
  sendRequest
    (headRequest mergeHeaders fo t (path (getResolvedInput ip))
       (WatchValues.headers (watch s))) (world s) = (inr r, w) ->
  Response.status r = 404 ->
  fst (run fo ip t s) = SpecError not_ok r /\
  watch (snd (run fo ip t s)) = watch s /\
  WatchValues.isHeadMethodSupported (watch (snd (run fo ip t s))) <> Some false /\
  forall fo' t', exists res rest,
    log (snd (run fo' ip t' (snd (run fo ip t s)))) =
      log (snd (run fo ip t s)) ++
      {| phase := HEAD;
         request := headRequest mergeHeaders fo' t' (path (getResolvedInput ip))
                      (WatchValues.headers (watch s));
         result := res |} :: rest.
Proof.
  intros E Hp Hu Hs H404.
  rewrite (run_probe_status_ge_300 _ _ _ _ _ _ E Hp Hs) by lia. simpl.
  repeat split; [congruence|].
  intros fo' t'.
  set (s1 := logged s HEAD _ (inr r) w).
  pose proof (run_url_log fo' ip t' s1 E) as L. simpl in L.
  change (watch s1) with (watch s) in L. rewrite Hp in L.
  destruct L as (res & [L | (res' & L)]); rewrite L; eauto.
Qed.

(** C3 (what the code does): a probe answered with status 304 falls under
    the test [status >= 300] of line 84, so the call returns the not-ok
    result with that response, never the not-modified one, whether HEAD
    support was unknown or recorded as true. *)
Theorem probe_304_is_not_ok fo ip t s r w :
  type (getResolvedInput ip) = url_ ->
  probing (watch s) = true ->
  sendRequest
    (headRequest mergeHeaders fo t (path (getResolvedInput ip))
       (WatchValues.headers (watch s))) (world s) = (inr r, w) ->
  Response.status r = 304 ->
  fst (run fo ip t s) = SpecError not_ok r /\
  isNotOk (fst (run fo ip t s)) /\
  ~ isNotModified (fst (run fo ip t s)) /\
  watch (snd (run fo ip t s)) = watch s.
Proof.
  intros E Hp Hs H304.
  rewrite (run_probe_status_ge_300 _ _ _ _ _ _ E Hp Hs) by lia. simpl.
  repeat split; eauto.
  intros (He & _). discriminate He.
Qed.

(** ** The probe was answered with a status below 300 *)

Lemma afterHead_regressed r v s :
  Response.ok r = false ->
  WatchValues.isHeadMethodSupported (watch s) = Some true ->
  afterHead r v s = (Return (SpecError not_ok r), s).
Proof.
  unfold afterHead. intros -> ->. reflexivity.
Qed.

Lemma afterHead_pass r s :
  Response.status r < 300 ->
  Response.ok r = true \/ WatchValues.isHeadMethodSupported (watch s) <> Some true ->
  afterHead r Locals.init s =
    (let '(hasChanged, w) := validators r (record_support r (watch s)) in
     if bool_decide (hasChanged = Some false)
     then (Return (SpecError not_modified r), with_watch w s)
     else (Continue {| Locals.arrayBuffer := None;
                       Locals.hasChanged := hasChanged;
                       Locals.response := Some r |}, with_watch w s)).
Proof.
  intros Hlt Hok. unfold afterHead.
  assert (G : negb (Response.ok r)
              && bool_decide (WatchValues.isHeadMethodSupported (watch s) = Some true)
              = false).
  { destruct Hok as [-> | Hne]; [reflexivity|].
    rewrite (bool_decide_eq_false_2 _ Hne). apply andb_false_r. }
  rewrite G.
  assert (N : (Response.status r =? 304) = false) by (apply Z.eqb_neq; lia).
  unfold validators, record_support, with_watch, update_watch.
  destruct (WatchValues.isHeadMethodSupported (watch s));
    cbn [watch world log Locals.hasChanged Locals.arrayBuffer Locals.init];
    rewrite N;
    match goal with |- context [checkETag r None ?w0] =>
      destruct (checkETag r None w0) as [h1 w1] end;
    destruct (checkLastModified r h1 w1) as [h2 w2];
    destruct (bool_decide (h2 = Some false)); reflexivity.
Qed.

Lemma validators_etag r w value :
  Headers.get (Response.headers r) "ETag" = Some value ->
  value <> "" ->
  validators r w =
    (Some (strict_ne (Some value) (Headers.get (WatchValues.headers w) "If-None-Match")),
     if strict_ne (Some value) (Headers.get (WatchValues.headers w) "If-None-Match")
     then set_header "If-None-Match" value w else w).
Proof.
  intros H Hne. unfold validators, checkETag. rewrite H. simpl.
  rewrite (bool_decide_eq_false_2 _ Hne). reflexivity.
Qed.

Lemma validators_lastModified r w value :
  carries r "ETag" = false ->
  Headers.get (Response.headers r) "Last-Modified" = Some value ->
  value <> "" ->
  validators r w =
    (Some (strict_ne (Some value)
             (Headers.get (WatchValues.headers w) "If-Modified-Since")),
     if strict_ne (Some value) (Headers.get (WatchValues.headers w) "If-Modified-Since")
     then set_header "If-Modified-Since" value w else w).
Proof.
  intros He H Hne. unfold validators, checkETag, checkLastModified.
  unfold carries in He.
  destruct (Headers.get (Response.headers r) "ETag") as [e|] eqn:E;
    [rewrite He|]; rewrite H; simpl;
    rewrite (bool_decide_eq_false_2 _ Hne); reflexivity.
Qed.

Lemma validators_none r w :
  carries r "ETag" = false ->
  carries r "Last-Modified" = false ->
  validators r w = (None, w).
Proof.
  intros He Hl. unfold validators, checkETag, checkLastModified.
  unfold carries in He, Hl.
  destruct (Headers.get (Response.headers r) "ETag") as [e|] eqn:E;
    [rewrite He|];
    (destruct (Headers.get (Response.headers r) "Last-Modified") as [l|] eqn:L;
      [rewrite Hl|]); reflexivity.
Qed.

Lemma truthy_Some (v : option string) :
  truthy v = true -> exists value, v = Some value /\ value <> "".
Proof.
  destruct v as [value|]; simpl; [|discriminate].
  intros H. exists value. split; [reflexivity|].
  apply negb_true_iff, bool_decide_eq_false in H. exact H.
Qed.

Lemma validators_unchanged r w :
  unchanged_by_validators r w ->
  validators r w = (Some false, w).
Proof.
  intros [(Hc & Heq) | (Hc & Hl & Heq)].
  - destruct (truthy_Some _ Hc) as (value & Hv & Hne).
    rewrite (validators_etag _ _ _ Hv Hne), <- Heq, Hv.
    unfold strict_ne. rewrite bool_decide_eq_true_2 by reflexivity. reflexivity.
  - destruct (truthy_Some _ Hl) as (value & Hv & Hne).
    rewrite (validators_lastModified _ _ _ Hc Hv Hne), <- Heq, Hv.
    unfold strict_ne. rewrite bool_decide_eq_true_2 by reflexivity. reflexivity.
Qed.

Lemma record_support_headers r w :
  WatchValues.headers (record_support r w) = WatchValues.headers w.
Proof.
  unfold record_support. destruct (WatchValues.isHeadMethodSupported w); reflexivity.
Qed.

Lemma record_support_lastValue r w :
  WatchValues.lastValue (record_support r w) = WatchValues.lastValue w.
Proof.
  unfold record_support. destruct (WatchValues.isHeadMethodSupported w); reflexivity.
Qed.

Lemma headRequest_method fo t p h :
  RequestInit.method (fetchOptions (headRequest mergeHeaders fo t p h))
    = match method_member fo with
      | absent => present "HEAD"
      | m => m
      end.
Proof.
  destruct fo as [[[| |m] hs]|]; reflexivity.
Qed.

(** C4 (amended): on a URL, when the probe is answered (status below 300, and
    not a not-ok answer from a server whose HEAD support was recorded) and
    its validators settle that the input has not changed, the call returns
    the not-modified result with the probe response at once and the GET
    fetch is skipped: the probe is the only transport call of the
    invocation.  The probe carries the [method] member of [fetchOptions] when
    there is one and goes out as HEAD otherwise, so without such a member no
    GET request is issued. *)
Theorem unchanged_validators_skip_fetch fo ip t s r w :
  type (getResolvedInput ip) = url_ ->
  probing (watch s) = true ->
  sendRequest
    (headRequest mergeHeaders fo t (path (getResolvedInput ip))
       (WatchValues.headers (watch s))) (world s) = (inr r, w) ->
  Response.status r < 300 ->
  Response.ok r = true \/ WatchValues.isHeadMethodSupported (watch s) <> Some true ->
  unchanged_by_validators r (watch s) ->
  fst (run fo ip t s) = SpecError not_modified r /\
  isNotModified (fst (run fo ip t s)) /\
  log (snd (run fo ip t s)) =
    log s ++
    [ {| phase := HEAD;
         request := headRequest mergeHeaders fo t (path (getResolvedInput ip))
                      (WatchValues.headers (watch s));
         result := inr r |} ] /\
  Forall (fun e => phase e = HEAD)
    (drop (length (log s)) (log (snd (run fo ip t s)))) /\
  world (snd (run fo ip t s)) = w /\
  Forall
    (fun e =>
       RequestInit.method (fetchOptions (request e))
         = match method_member fo with
           | absent => present "HEAD"
           | m => m
           end)
    (drop (length (log s)) (log (snd (run fo ip t s)))) /\
  (method_member fo = absent ->
   Forall (fun e => sent_method (request e) = "HEAD")
     (drop (length (log s)) (log (snd (run fo ip t s))))).
Proof.
  intros E Hp Hs Hlt Hok Hu.
  rewrite (run_url _ _ _ _ E), (probe_answered _ _ _ _ _ _ _ Hp Hs Hlt).
  rewrite afterHead_pass by assumption.
  cbn [watch logged].
  rewrite validators_unchanged.
  2:{ unfold unchanged_by_validators in *. rewrite record_support_headers. exact Hu. }
  simpl. rewrite drop_app_length.
  split; [reflexivity|]. split; [unfold isNotModified; cbn; eauto|].
  split; [reflexivity|]. split; [repeat constructor|].
  split; [reflexivity|]. split.
  - apply Forall_cons_2; [|apply Forall_nil_2]. cbn [request].
    apply headRequest_method.
  - intros Ha. apply Forall_cons_2; [|apply Forall_nil_2]. cbn [request].
    unfold sent_method. rewrite headRequest_method, Ha. reflexivity.
Qed.

(** ** HEAD support over a session *)

Lemma checkETag_support r h w :
  WatchValues.isHeadMethodSupported (snd (checkETag r h w))
    = WatchValues.isHeadMethodSupported w /\
  WatchValues.lastValue (snd (checkETag r h w)) = WatchValues.lastValue w.
Proof.
  unfold checkETag. repeat (case_match; simpl); auto.
Qed.

Lemma checkLastModified_support r h w :
  WatchValues.isHeadMethodSupported (snd (checkLastModified r h w))
    = WatchValues.isHeadMethodSupported w /\
  WatchValues.lastValue (snd (checkLastModified r h w)) = WatchValues.lastValue w.
Proof.
  unfold checkLastModified. repeat (case_match; simpl); auto.
Qed.

Lemma afterHead_support r v s b :
  WatchValues.isHeadMethodSupported (watch s) = Some b ->
  WatchValues.isHeadMethodSupported (watch (snd (afterHead r v s))) = Some b.
Proof.
  intros H. unfold afterHead. rewrite H.
  destruct (negb (Response.ok r) && bool_decide (Some b = Some true)); [exact H|].
  destruct (Response.status r =? 304); [exact H|].
  pose proof (checkETag_support r (Locals.hasChanged v) (watch s)) as [A _].
  destruct (checkETag r (Locals.hasChanged v) (watch s)) as [h1 w1].
  pose proof (checkLastModified_support r h1 w1) as [B _].
  destruct (checkLastModified r h1 w1) as [h2 w2]. simpl in A, B.
  destruct (bool_decide (h2 = Some false)); simpl; congruence.
Qed.

Lemma fetch_support fo t p v s :
  WatchValues.isHeadMethodSupported (watch (snd (fetch fo t p v s)))
    = WatchValues.isHeadMethodSupported (watch s).
Proof.
  unfold getFetch, send, update_watch.
  destruct (sendRequest _ _) as [res w].
  repeat (case_match; simpl); auto.
Qed.

Lemma probe_support fo t p v s b :
  WatchValues.isHeadMethodSupported (watch s) = Some b ->
  WatchValues.isHeadMethodSupported (watch (snd (probe fo t p v s))) = Some b.
Proof.
  intros H. unfold headProbe, send.
  destruct (_ && _); [|exact H].
  destruct (sendRequest _ _) as [[e|r] w]; [exact H|].
  destruct (300 <=? Response.status r); [exact H|].
  apply afterHead_support. exact H.
Qed.

Lemma run_support fo ip t s b :
  WatchValues.isHeadMethodSupported (watch s) = Some b ->
  WatchValues.isHeadMethodSupported (watch (snd (run fo ip t s))) = Some b.
Proof.
  intros H.
  destruct (decide (type (getResolvedInput ip) = url_)) as [E|E].
  - rewrite (run_url _ _ _ _ E).
    pose proof (probe_support fo t (path (getResolvedInput ip)) Locals.init s b H) as P.
    destruct (probe _ _ _ _ _) as [[r|v] s1]; simpl in *; [exact P|].
    pose proof (fetch_support fo t (path (getResolvedInput ip)) v s1) as F.
    destruct (fetch _ _ _ _ _) as [[r|v'] s2]; simpl in *; congruence.
  - rewrite (run_notUrl _ _ _ _ E). exact H.
Qed.

Lemma unsupported_not_probing (w : WatchValues.t) :
  WatchValues.isHeadMethodSupported w = Some false -> probing w = false.
Proof.
  unfold probing. intros ->. apply andb_false_r.
Qed.

Lemma getRequest_method fo t p :
  sent_method (getRequest fo t p) = default "GET" (method_of fo).
Proof.
  destruct fo as [[[| |m] h]|]; reflexivity.
Qed.

Lemma run_log_unprobed_requests fo ip t s :
  probing (watch s) = false ->
  exists new,
    log (snd (run fo ip t s)) = log s ++ new /\
    Forall (fun e => phase e = GET /\
                     request e = getRequest fo t (path (getResolvedInput ip))) new.
Proof.
  intros Hp.
  destruct (decide (type (getResolvedInput ip) = url_)) as [E|E].
  - pose proof (run_url_log fo ip t s E) as L. simpl in L. rewrite Hp in L.
    destruct L as (res & L). eexists. split; [exact L|].
    apply Forall_cons_2; [split; reflexivity | apply Forall_nil_2].
  - rewrite (run_notUrl _ _ _ _ E). exists []. simpl.
    rewrite app_nil_r. split; [reflexivity|constructor].
Qed.

(** C5 (amended): [isHeadMethodSupported] is assigned only while it is
    unknown: a known value survives every call of a session.  In particular,
    once it is [false] at the start of a call it is [false] after every
    later call, and none of these calls sends the HEAD probe: every
    transport exchange they add to the log is the GET fetch of one of the
    calls, which goes out with the method named by the [fetchOptions] of
    that call, GET when they name none. *)
Theorem head_support_is_final
    (calls : list (option RequestInit.t * InputPath * option Z)) s b :
  WatchValues.isHeadMethodSupported (watch s) = Some b ->
  let s' := session (fun c => run c.1.1 c.1.2 c.2) calls s in
  WatchValues.isHeadMethodSupported (watch s') = Some b /\
  (b = false ->
   exists new,
     log s' = log s ++ new /\
     Forall
       (fun e =>
          phase e = GET /\
          exists c,
            In c calls /\
            request e = getRequest c.1.1 c.2 (path (getResolvedInput c.1.2)) /\
            sent_method (request e) = default "GET" (method_of c.1.1)) new).
Proof.
  revert s. induction calls as [|[[fo ip] t] rest IH]; intros s H; simpl.
  - split; [exact H|]. intros _. exists []. rewrite app_nil_r.
    split; [reflexivity|constructor].
  - pose proof (run_support fo ip t s b H) as H1.
    destruct (IH _ H1) as [IHa IHb]. split; [exact IHa|].
    intros ->.
    destruct (run_log_unprobed_requests fo ip t s (unsupported_not_probing _ H))
      as (new1 & L1 & F1).
    destruct (IHb eq_refl) as (new2 & L2 & F2).
    exists (new1 ++ new2). split.
    + rewrite L2, L1, app_assoc. reflexivity.
    + apply Forall_app. split.
      * eapply Forall_impl; [exact F1|]. intros e (Hph & Hreq).
        split; [exact Hph|]. exists (fo, ip, t). cbn [fst snd].
        split; [left; reflexivity|]. split; [exact Hreq|].
        rewrite Hreq. apply getRequest_method.
      * eapply Forall_impl; [exact F2|]. intros e (Hph & c & Hin & Hreq & Hm).
        split; [exact Hph|]. exists c. split; [right; exact Hin|].
        split; assumption.
Qed.

(** ** What is sent *)

Lemma getRequest_headers fo t p :
  RequestInit.headers (fetchOptions (getRequest fo t p)) = headers_of fo.
Proof.
  destruct fo as [[m [h|]]|]; reflexivity.
Qed.

(** C6 (amended): on the first call for a URL source ([lastValue] unset, or
    empty) the HEAD probe is not sent: exactly one transport call is made,
    the GET fetch, and its method is the one named by [fetchOptions], GET
    when [fetchOptions] names none. *)
Theorem first_poll_single_fetch fo ip t s :
  type (getResolvedInput ip) = url_ ->
  truthy (WatchValues.lastValue (watch s)) = false ->
  exists res,
    log (snd (run fo ip t s)) =
      log s ++
      [ {| phase := GET;
           request := getRequest fo t (path (getResolvedInput ip));
           result := res |} ] /\
    sent_method (getRequest fo t (path (getResolvedInput ip)))
      = default "GET" (method_of fo) /\
    RequestInit.method (fetchOptions (getRequest fo t (path (getResolvedInput ip))))
      = match method_member fo with
        | absent => present "GET"
        | m => m
        end.
Proof.
  intros E Hl.
  pose proof (run_url_log fo ip t s E) as L. simpl in L.
  unfold probing in L. rewrite Hl in L. simpl in L.
  destruct L as (res & L). exists res. split; [exact L|].
  split; [apply getRequest_method|].
  destruct fo as [[[| |m] h]|]; reflexivity.
Qed.

(** C10: the stored validators ([watch.headers]) enter a request only
    through [mergeHeaders] in the HEAD probe.  Every request of the GET fetch
    is built from [fetchOptions], the timeout and the path alone, with the
    headers of [fetchOptions] as they were supplied, whatever the watch
    values are. *)
Theorem watch_validators_only_in_probe fo ip t s :
  exists new,
    log (snd (run fo ip t s)) = log s ++ new /\
    Forall
      (fun e =>
         match phase e with
         | HEAD =>
             RequestInit.headers (fetchOptions (request e))
               = Some (mergeHeaders
                         [headers_of fo; Some (WatchValues.headers (watch s))])
         | GET =>
             request e = getRequest fo t (path (getResolvedInput ip)) /\
             RequestInit.headers (fetchOptions (request e)) = headers_of fo
         end) new.
Proof.
  destruct (decide (type (getResolvedInput ip) = url_)) as [E|E].
  - pose proof (run_url_log fo ip t s E) as L. simpl in L.
    destruct (probing (watch s)).
    + destruct L as (res & [L | (res' & L)]); eexists; (split; [exact L|]).
      * apply Forall_cons_2; [reflexivity | apply Forall_nil_2].
      * apply Forall_cons_2; [reflexivity|].
        apply Forall_cons_2; [|apply Forall_nil_2].
        split; [reflexivity | apply getRequest_headers].
    + destruct L as (res & L). eexists. split; [exact L|].
      apply Forall_cons_2; [|apply Forall_nil_2].
      split; [reflexivity | apply getRequest_headers].
  - rewrite (run_notUrl _ _ _ _ E). exists []. simpl.
    rewrite app_nil_r. split; [reflexivity|constructor].
Qed.

(** ** The GET fetch *)

Lemma ok_status r : Response.ok r = true -> 200 <= Response.status r < 300.
Proof.
  unfold Response.ok. intros H. apply andb_true_iff in H as [A B].
  apply Z.leb_le in A, B. lia.
Qed.

Lemma fetch_eq fo t p v s :
  fetch fo t p v s =
    (let '(res, w) := sendRequest (getRequest fo t p) (world s) in
     let s1 := logged s GET (getRequest fo t p) res w in
     match res with
     | inl e => (Return (SpecError not_ok (new_Response encode (message e))), s1)
     | inr r =>
         if Response.ok r
         then
           match Locals.hasChanged v with
           | None =>
               (Continue
                  {| Locals.arrayBuffer := Some (bytes_of r);
                     Locals.hasChanged :=
                       Some (strict_ne (Some (decode (bytes_of r)))
                               (WatchValues.lastValue (watch s)));
                     Locals.response := Some r |},
                with_watch (set_lastValue (decode (bytes_of r)) (watch s)) s1)
           | Some b =>
               (Continue
                  {| Locals.arrayBuffer := Some (bytes_of r);
                     Locals.hasChanged := Some b;
                     Locals.response := Some r |}, s1)
           end
         else (Return (SpecError not_ok r), s1)
     end).
Proof.
  unfold getFetch, send, logged, with_watch, update_watch, bytes_of.
  destruct (sendRequest _ _) as [[e|r] w]; [reflexivity|].
  destruct (Response.ok r) eqn:Hok.
  - pose proof (ok_status r Hok) as [_ Hlt]. apply Z.leb_gt in Hlt. rewrite Hlt.
    simpl. destruct (Locals.hasChanged v); reflexivity.
  - destruct (300 <=? Response.status r); reflexivity.
Qed.

Lemma run_probe_pass fo ip t s r w :
  type (getResolvedInput ip) = url_ ->
  probing (watch s) = true ->
  sendRequest
    (headRequest mergeHeaders fo t (path (getResolvedInput ip))
       (WatchValues.headers (watch s))) (world s) = (inr r, w) ->
  Response.status r < 300 ->
  Response.ok r = true \/ WatchValues.isHeadMethodSupported (watch s) <> Some true ->
  run fo ip t s =
    (let s1 :=
       logged s HEAD
         (headRequest mergeHeaders fo t (path (getResolvedInput ip))
            (WatchValues.headers (watch s))) (inr r) w in
     let '(hasChanged, w1) := validators r (record_support r (watch s)) in
     if bool_decide (hasChanged = Some false)
     then (SpecError not_modified r, with_watch w1 s1)
     else
       match fetch fo t (path (getResolvedInput ip))
               {| Locals.arrayBuffer := None;
                  Locals.hasChanged := hasChanged;
                  Locals.response := Some r |} (with_watch w1 s1) with
       | (Return r', s2) => (r', s2)
       | (Continue v', s2) => (finish (getResolvedInput ip) v', s2)
       end).
Proof.
  intros E Hp Hs Hlt Hok.
  rewrite (run_url _ _ _ _ E), (probe_answered _ _ _ _ _ _ _ Hp Hs Hlt).
  rewrite afterHead_pass by assumption. cbn [watch logged].
  destruct (validators r (record_support r (watch s))) as [h w1].
  cbv zeta. destruct (bool_decide (h = Some false)); reflexivity.
Qed.

(** ** The three verdicts of the validators *)

Lemma strict_ne_true a b : strict_ne a b = true <-> a <> b.
Proof.
  unfold strict_ne. rewrite negb_true_iff, bool_decide_eq_false. reflexivity.
Qed.

Lemma strict_ne_false a b : strict_ne a b = false <-> a = b.
Proof.
  unfold strict_ne. rewrite negb_false_iff, bool_decide_eq_true. reflexivity.
Qed.

Lemma validators_cases r w :
  (validators r w = (Some false, w) /\ unchanged_by_validators r w)
  \/ (exists value,
        Headers.get (Response.headers r) "ETag" = Some value /\ value <> "" /\
        Some value <> Headers.get (WatchValues.headers w) "If-None-Match" /\
        validators r w = (Some true, set_header "If-None-Match" value w))
  \/ (exists value,
        carries r "ETag" = false /\
        Headers.get (Response.headers r) "Last-Modified" = Some value /\
        value <> "" /\
        Some value <> Headers.get (WatchValues.headers w) "If-Modified-Since" /\
        validators r w = (Some true, set_header "If-Modified-Since" value w))
  \/ (carries r "ETag" = false /\ carries r "Last-Modified" = false /\
      validators r w = (None, w)).
Proof.
  destruct (carries r "ETag") eqn:He.
  - destruct (truthy_Some _ He) as (value & Hv & Hne).
    rewrite (validators_etag _ _ _ Hv Hne).
    destruct (strict_ne (Some value) _) eqn:Hc.
    + right. left. exists value. apply strict_ne_true in Hc. auto.
    + left. apply strict_ne_false in Hc. split; [reflexivity|].
      left. split; [exact He|]. congruence.
  - destruct (carries r "Last-Modified") eqn:Hl.
    + destruct (truthy_Some _ Hl) as (value & Hv & Hne).
      rewrite (validators_lastModified _ _ _ He Hv Hne).
      destruct (strict_ne (Some value) _) eqn:Hc.
      * right. right. left. exists value. apply strict_ne_true in Hc. auto 6.
      * left. apply strict_ne_false in Hc. split; [reflexivity|].
        right. repeat split; congruence.
    + right. right. right. auto using validators_none.
Qed.

(** When the validators say "changed", the fetch decides between not-ok and
    content; the body is not compared and [lastValue] is not written. *)
Lemma run_changed_by_validators fo ip t s r w w1 :
  type (getResolvedInput ip) = url_ ->
  probing (watch s) = true ->
  sendRequest
    (headRequest mergeHeaders fo t (path (getResolvedInput ip))
       (WatchValues.headers (watch s))) (world s) = (inr r, w) ->
  Response.status r < 300 ->
  Response.ok r = true \/ WatchValues.isHeadMethodSupported (watch s) <> Some true ->
  validators r (record_support r (watch s)) = (Some true, w1) ->
  watch (snd (run fo ip t s)) = w1 /\
  (isNotOk (fst (run fo ip t s)) \/
   exists rg,
     fst (sendRequest (getRequest fo t (path (getResolvedInput ip))) w) = inr rg /\
     Response.ok rg = true /\
     fst (run fo ip t s) = SpecResponse (Some (bytes_of rg)) (getResolvedInput ip)).
Proof.
  intros E Hp Hs Hlt Hok Hv.
  rewrite (run_probe_pass _ _ _ _ _ _ E Hp Hs Hlt Hok), Hv. cbv zeta.
  rewrite bool_decide_eq_false_2 by discriminate.
  rewrite fetch_eq. cbn [world with_watch logged].
  destruct (sendRequest (getRequest _ _ _) w) as [[e|rg] wg]; cbn [fst snd].
  - split; [reflexivity|]. left. repeat split; eauto.
  - destruct (Response.ok rg) eqn:Hg; cbn [Locals.hasChanged fst snd].
    + split; [reflexivity|]. right. exists rg. auto.
    + split; [reflexivity|]. left. repeat split; eauto.
Qed.

(** ** The comparison of contents *)

Lemma run_undetermined_fetched fo ip t s r w rg wg :
  type (getResolvedInput ip) = url_ ->
  probing (watch s) = true ->
  sendRequest
    (headRequest mergeHeaders fo t (path (getResolvedInput ip))
       (WatchValues.headers (watch s))) (world s) = (inr r, w) ->
  Response.status r < 300 ->
  Response.ok r = true \/ WatchValues.isHeadMethodSupported (watch s) <> Some true ->
  carries r "ETag" = false ->
  carries r "Last-Modified" = false ->
  sendRequest (getRequest fo t (path (getResolvedInput ip))) w = (inr rg, wg) ->
  Response.ok rg = true ->
  run fo ip t s =
    (by_content decode rg (WatchValues.lastValue (watch s)) (getResolvedInput ip),
     with_watch (set_lastValue (decode (bytes_of rg)) (record_support r (watch s)))
       (logged
          (logged s HEAD
             (headRequest mergeHeaders fo t (path (getResolvedInput ip))
                (WatchValues.headers (watch s))) (inr r) w)
          GET (getRequest fo t (path (getResolvedInput ip))) (inr rg) wg)).
Proof.
  intros E Hp Hs Hlt Hok He Hl Hg Hokg.
  rewrite (run_probe_pass _ _ _ _ _ _ E Hp Hs Hlt Hok).
  rewrite (validators_none _ _ He Hl). cbv zeta.
  rewrite bool_decide_eq_false_2 by discriminate.
  rewrite fetch_eq. cbn [world with_watch logged]. rewrite Hg, Hokg.
  unfold by_content, finish. cbn. rewrite record_support_lastValue.
  destruct (strict_ne _ _); reflexivity.
Qed.

Lemma run_unchanged_by_validators fo ip t s r w :
  type (getResolvedInput ip) = url_ ->
  probing (watch s) = true ->
  sendRequest
    (headRequest mergeHeaders fo t (path (getResolvedInput ip))
       (WatchValues.headers (watch s))) (world s) = (inr r, w) ->
  Response.status r < 300 ->
  Response.ok r = true \/ WatchValues.isHeadMethodSupported (watch s) <> Some true ->
  unchanged_by_validators r (watch s) ->
  run fo ip t s =
    (SpecError not_modified r,
     with_watch (record_support r (watch s))
       (logged s HEAD
          (headRequest mergeHeaders fo t (path (getResolvedInput ip))
             (WatchValues.headers (watch s))) (inr r) w)).
Proof.
  intros E Hp Hs Hlt Hok Hu.
  rewrite (run_probe_pass _ _ _ _ _ _ E Hp Hs Hlt Hok).
  rewrite validators_unchanged.
  2:{ unfold unchanged_by_validators in *. rewrite record_support_headers. exact Hu. }
  reflexivity.
Qed.

Lemma content_is_not_not_modified b i : ~ isNotModified (SpecResponse b i).
Proof. intros (H & _). discriminate H. Qed.

Lemma not_ok_is_not_not_modified res : isNotOk res -> ~ isNotModified res.
Proof. intros (H & _) (H' & _). congruence. Qed.

(** C7: the validators are consulted in a fixed order of priority.  For a
    probe that was answered (status below 300, no regression of a server
    with recorded HEAD support):
    - a response carrying an entity tag is judged by that tag alone: equal
      to the stored [If-None-Match] gives not-modified at once, different
      stores the new tag and nothing else, whatever [Last-Modified] says;
    - the modification date is used only when the response carries no
      entity tag, in the same way against [If-Modified-Since];
    - when either validator is carried the body of the fetch is not
      compared: [lastValue] is left alone and a not-modified result can only
      come from the validators;
    - when neither is carried, a successful fetch is judged by its decoded
      body against [lastValue]. *)
Theorem validators_in_priority_order fo ip t s r w :
  type (getResolvedInput ip) = url_ ->
  probing (watch s) = true ->
  sendRequest
    (headRequest mergeHeaders fo t (path (getResolvedInput ip))
       (WatchValues.headers (watch s))) (world s) = (inr r, w) ->
  Response.status r < 300 ->
  Response.ok r = true \/ WatchValues.isHeadMethodSupported (watch s) <> Some true ->
  let res := fst (run fo ip t s) in
  let w' := watch (snd (run fo ip t s)) in
  let stored := Headers.get (WatchValues.headers (watch s)) in
  (forall e, Headers.get (Response.headers r) "ETag" = Some e -> e <> "" ->
     (Some e = stored "If-None-Match" ->
      res = SpecError not_modified r /\
      WatchValues.headers w' = WatchValues.headers (watch s)) /\
     (Some e <> stored "If-None-Match" ->
      WatchValues.headers w'
        = Headers.set (WatchValues.headers (watch s)) "If-None-Match" e /\
      ~ isNotModified res)) /\
  (carries r "ETag" = false ->
   forall l, Headers.get (Response.headers r) "Last-Modified" = Some l -> l <> "" ->
     (Some l = stored "If-Modified-Since" ->
      res = SpecError not_modified r /\
      WatchValues.headers w' = WatchValues.headers (watch s)) /\
     (Some l <> stored "If-Modified-Since" ->
      WatchValues.headers w'
        = Headers.set (WatchValues.headers (watch s)) "If-Modified-Since" l /\
      ~ isNotModified res)) /\
  (carries r "ETag" = true \/ carries r "Last-Modified" = true ->
   WatchValues.lastValue w' = WatchValues.lastValue (watch s) /\
   (isNotModified res -> unchanged_by_validators r (watch s))) /\
  (carries r "ETag" = false -> carries r "Last-Modified" = false ->
   forall rg wg,
     sendRequest (getRequest fo t (path (getResolvedInput ip))) w = (inr rg, wg) ->
     Response.ok rg = true ->
     res = by_content decode rg (WatchValues.lastValue (watch s)) (getResolvedInput ip) /\
     WatchValues.lastValue w' = Some (decode (bytes_of rg))).
Proof.
  intros E Hp Hs Hlt Hok res w' stored. subst res w' stored.
  assert (U : unchanged_by_validators r (watch s) ->
              fst (run fo ip t s) = SpecError not_modified r /\
              watch (snd (run fo ip t s)) = record_support r (watch s)).
  { intros Hu.
    rewrite (run_unchanged_by_validators _ _ _ _ _ _ E Hp Hs Hlt Hok Hu).
    split; reflexivity. }
  assert (C : forall w1,
              validators r (record_support r (watch s)) = (Some true, w1) ->
              watch (snd (run fo ip t s)) = w1 /\
              ~ isNotModified (fst (run fo ip t s))).
  { intros w1 Hv.
    destruct (run_changed_by_validators _ _ _ _ _ _ _ E Hp Hs Hlt Hok Hv)
      as [Hw [Hn | (rg & _ & _ & Hc)]]; split; auto.
    - apply not_ok_is_not_not_modified, Hn.
    - rewrite Hc. apply content_is_not_not_modified. }
  split; [|split; [|split]].
  - intros e He Hne. split; intros Hcmp.
    + destruct U as [U1 U2].
      { left. unfold carries. rewrite He. simpl.
        rewrite (bool_decide_eq_false_2 _ Hne). split; [reflexivity|exact Hcmp]. }
      rewrite U1, U2, record_support_headers. split; reflexivity.
    + destruct (C (set_header "If-None-Match" e (record_support r (watch s))))
        as [C1 C2].
      { rewrite (validators_etag _ _ _ He Hne).
        rewrite record_support_headers.
        rewrite (proj2 (strict_ne_true _ _) Hcmp). reflexivity. }
      rewrite C1. simpl. rewrite record_support_headers. split; [reflexivity|exact C2].
  - intros Hc l Hl Hne. split; intros Hcmp.
    + destruct U as [U1 U2].
      { right. unfold carries at 2. rewrite Hl. simpl.
        rewrite (bool_decide_eq_false_2 _ Hne). repeat split; auto. }
      rewrite U1, U2, record_support_headers. split; reflexivity.
    + destruct (C (set_header "If-Modified-Since" l (record_support r (watch s))))
        as [C1 C2].
      { rewrite (validators_lastModified _ _ _ Hc Hl Hne).
        rewrite record_support_headers.
        rewrite (proj2 (strict_ne_true _ _) Hcmp). reflexivity. }
      rewrite C1. simpl. rewrite record_support_headers. split; [reflexivity|exact C2].
  - intros Hc.
    destruct (validators_cases r (record_support r (watch s)))
      as [(Hv & Hu) | [(e & He & Hne & Hcmp & Hv) | [(l & Hce & Hl & Hne & Hcmp & Hv)
          | (Hce & Hcl & Hv)]]].
    + assert (Hu' : unchanged_by_validators r (watch s)).
      { unfold unchanged_by_validators in *.
        rewrite record_support_headers in Hu. exact Hu. }
      destruct (U Hu') as [U1 U2]. rewrite U2, record_support_lastValue. auto.
    + destruct (C _ Hv) as [C1 C2]. rewrite C1. simpl.
      rewrite record_support_lastValue. split; [reflexivity|]. intros; tauto.
    + destruct (C _ Hv) as [C1 C2]. rewrite C1. simpl.
      rewrite record_support_lastValue. split; [reflexivity|]. intros; tauto.
    + destruct Hc; congruence.
  - intros He Hl rg wg Hg Hokg.
    rewrite (run_undetermined_fetched _ _ _ _ _ _ _ _ E Hp Hs Hlt Hok He Hl Hg Hokg).
    split; reflexivity.
Qed.

(** ** Every call of the probe falls under one outcome *)

Lemma carries_Some r name value :
  Headers.get (Response.headers r) name = Some value -> value <> "" ->
  carries r name = true.
Proof.
  intros H Hne. unfold carries. rewrite H. simpl.
  rewrite (bool_decide_eq_false_2 _ Hne). reflexivity.
Qed.

Lemma unchanged_by_validators_record r w :
  unchanged_by_validators r (record_support r w) <-> unchanged_by_validators r w.
Proof.
  unfold unchanged_by_validators. rewrite record_support_headers. reflexivity.
Qed.

Lemma probe_outcome_total fo t p s :
  probe_outcome sendRequest mergeHeaders encode fo t p s (probe fo t p Locals.init s).
Proof.
  destruct (probing (watch s)) eqn:Hp.
  2:{ rewrite (probe_skipped _ _ _ _ _ Hp). constructor. exact Hp. }
  destruct (sendRequest (headRequest mergeHeaders fo t p (WatchValues.headers (watch s)))
              (world s)) as [[e|r] w] eqn:Hs.
  { rewrite (probe_error _ _ _ _ _ _ _ Hp Hs). constructor; assumption. }
  destruct (Z_lt_le_dec (Response.status r) 300) as [Hlt|Hge].
  2:{ rewrite (probe_redirect_or_error_status _ _ _ _ _ _ _ Hp Hs Hge).
      apply probe_refused; assumption. }
  rewrite (probe_answered _ _ _ _ _ _ _ Hp Hs Hlt).
  assert (G : (Response.ok r = false /\
               WatchValues.isHeadMethodSupported (watch s) = Some true)
              \/ (Response.ok r = true \/
                  WatchValues.isHeadMethodSupported (watch s) <> Some true)).
  { destruct (Response.ok r); [auto|].
    destruct (WatchValues.isHeadMethodSupported (watch s)) as [[|]|]; auto;
      right; right; congruence. }
  destruct G as [[Hok Hsup] | Hok].
  { rewrite afterHead_regressed by assumption. apply probe_regressed; assumption. }
  rewrite afterHead_pass by assumption. cbn [watch logged].
  destruct (validators_cases r (record_support r (watch s)))
    as [(Hv & Hu) | [(e & He & Hne & Hcmp & Hv) | [(l & Hce & Hl & Hne & Hcmp & Hv)
        | (Hce & Hcl & Hv)]]]; rewrite Hv; cbv zeta.
  - rewrite bool_decide_eq_true_2 by reflexivity.
    apply probe_unchanged; try assumption. apply unchanged_by_validators_record, Hu.
  - rewrite bool_decide_eq_false_2 by discriminate.
    apply probe_changed; try assumption. left. eapply carries_Some; eassumption.
  - rewrite bool_decide_eq_false_2 by discriminate.
    apply probe_changed; try assumption. right. eapply carries_Some; eassumption.
  - rewrite bool_decide_eq_false_2 by discriminate.
    apply probe_undetermined; assumption.
Qed.

(** ** Failures *)

Lemma exactly_one_error e r : exactly_one_outcome (SpecError e r).
Proof.
  unfold exactly_one_outcome, isContent, isNotModified, isNotOk.
  destruct e; simpl; [right; left | right; right];
    (split; [eauto 6 | split; intros (H & _); discriminate H]).
Qed.

Lemma exactly_one_content b i : exactly_one_outcome (SpecResponse b i).
Proof.
  unfold exactly_one_outcome, isContent, isNotModified, isNotOk. simpl.
  left. split; [eauto | split; intros (H & _); discriminate H].
Qed.

Lemma isNotOk_error r : isNotOk (SpecError not_ok r).
Proof. unfold isNotOk; simpl; eauto 6. Qed.

(** What the fetch and the final [return] make of the local variables. *)
Lemma fetch_finish fo t p (input : ResolvedInput) v s :
  exists res out,
    match fetch fo t p v s with
    | (Return r', s2) => (r', s2)
    | (Continue v', s2) => (finish input v', s2)
    end = out /\
    log (snd out) =
      log s ++ [ {| phase := GET; request := getRequest fo t p; result := res |} ] /\
    exactly_one_outcome (fst out) /\
    (isNotOk (fst out) \/
     exists rg, res = inr rg /\ Response.ok rg = true).
Proof.
  rewrite fetch_eq.
  destruct (sendRequest (getRequest fo t p) (world s)) as [[e|rg] wg].
  - do 2 eexists. split; [reflexivity|]. simpl.
    auto using exactly_one_error, isNotOk_error.
  - destruct (Response.ok rg) eqn:Hok.
    + exists (inr rg).
      destruct (Locals.hasChanged v) as [[|]|]; eexists; (split; [reflexivity|]);
        unfold finish; simpl; try destruct (strict_ne _ _); simpl;
        (split; [reflexivity|]);
        (split; [auto using exactly_one_error, exactly_one_content | eauto]).
    + do 2 eexists. split; [reflexivity|]. simpl.
      auto using exactly_one_error, isNotOk_error.
Qed.

Lemma answered_probe_not_failed (w : WatchValues.t) req r :
  Response.status r < 300 ->
  Response.ok r = true \/ WatchValues.isHeadMethodSupported w <> Some true ->
  ~ failed w {| phase := HEAD; request := req; result := inr r |}.
Proof.
  intros Hlt Hok [Hge | (Hn & [Hp | Hs])]; simpl in *.
  - lia.
  - discriminate Hp.
  - destruct Hok; congruence.
Qed.

Lemma ok_fetch_not_failed (w : WatchValues.t) req rg :
  Response.ok rg = true ->
  ~ failed w {| phase := GET; request := req; result := inr rg |}.
Proof.
  intros Hok [Hge | (Hn & _)]; simpl in *.
  - apply ok_status in Hok. lia.
  - congruence.
Qed.

(** C9 (amended): every rejected request (on the probe or on the fetch),
    every response with a status of 300 or more, every not-ok response to the
    GET fetch, and every not-ok response to the probe of a server whose HEAD
    support was recorded ends the call with the not-ok result, which carries
    a response; the function returns on all these paths, and whatever it
    returns populates exactly one of the three outcomes. *)
Theorem failures_are_not_ok fo ip t s :
  exists new,
    log (snd (run fo ip t s)) = log s ++ new /\
    (forall e, In e new -> failed (watch s) e -> isNotOk (fst (run fo ip t s))) /\
    exactly_one_outcome (fst (run fo ip t s)).
Proof.
  destruct (decide (type (getResolvedInput ip) = url_)) as [E|E].
  2:{ rewrite (run_notUrl _ _ _ _ E). exists []. simpl. rewrite app_nil_r.
      split; [reflexivity|]. split; [intros e []|apply exactly_one_content]. }
  rewrite (run_url _ _ _ _ E).
  set (p := path (getResolvedInput ip)).
  pose proof (probe_outcome_total fo t p s) as O.
  remember (probe fo t p Locals.init s) as po eqn:Epo.
  destruct O as [Hp | e w Hp Hs | r w Hp Hs Hge | r w Hp Hs Hlt Hn Hsup
                 | r w Hp Hs Hlt Hok Hu | r w w1 Hp Hs Hlt Hok Hc Hv
                 | r w Hp Hs Hlt Hok He Hl].
  - destruct (fetch_finish fo t p (getResolvedInput ip) Locals.init s)
      as (res & out & -> & L & X & F).
    eexists. split; [exact L|]. split; [|exact X].
    intros e [<-|[]] Hf. destruct F as [F | (rg & -> & Hok)]; [exact F|].
    destruct (ok_fetch_not_failed _ _ _ Hok Hf).
  - eexists. split; [reflexivity|].
    split; [intros; apply isNotOk_error | apply exactly_one_error].
  - eexists. split; [reflexivity|].
    split; [intros; apply isNotOk_error | apply exactly_one_error].
  - eexists. split; [reflexivity|].
    split; [intros; apply isNotOk_error | apply exactly_one_error].
  - eexists. split; [reflexivity|]. split; [|apply exactly_one_error].
    intros e [<-|[]] Hf. destruct (answered_probe_not_failed _ _ _ Hlt Hok Hf).
  - match goal with |- context [fetch fo t p ?v ?s1] =>
      destruct (fetch_finish fo t p (getResolvedInput ip) v s1)
        as (res & out & -> & L & X & F) end.
    eexists. split; [rewrite L; simpl; rewrite <- app_assoc; reflexivity|].
    split; [|exact X].
    intros e [<-|[<-|[]]] Hf.
    + destruct (answered_probe_not_failed _ _ _ Hlt Hok Hf).
    + destruct F as [F | (rg & -> & Hokg)]; [exact F|].
      destruct (ok_fetch_not_failed _ _ _ Hokg Hf).
  - match goal with |- context [fetch fo t p ?v ?s1] =>
      destruct (fetch_finish fo t p (getResolvedInput ip) v s1)
        as (res & out & -> & L & X & F) end.
    eexists. split; [rewrite L; simpl; rewrite <- app_assoc; reflexivity|].
    split; [|exact X].
    intros e [<-|[<-|[]]] Hf.
    + destruct (answered_probe_not_failed _ _ _ Hlt Hok Hf).
    + destruct F as [F | (rg & -> & Hokg)]; [exact F|].
      destruct (ok_fetch_not_failed _ _ _ Hokg Hf).
Qed.

(** ** Polls of a server without validators *)

Lemma fetched_plain_one e rg :
  fetched_plain [e] rg ->
  phase e = GET /\ result e = inr rg /\ Response.ok rg = true.
Proof.
  intros (pre & req & H & Hok & _).
  change [e] with ([] ++ [e]) in H. apply app_inj_tail in H as [_ ->]. auto.
Qed.

Lemma fetched_plain_two e1 e2 rg :
  fetched_plain [e1; e2] rg ->
  plain_exchange e1 /\ phase e2 = GET /\ result e2 = inr rg /\ Response.ok rg = true.
Proof.
  intros (pre & req & H & Hok & Hpre).
  change [e1; e2] with ([e1] ++ [e2]) in H. apply app_inj_tail in H as [<- ->].
  apply Forall_inv in Hpre. auto.
Qed.

Lemma run_fetched_plain fo ip t s rg :
  type (getResolvedInput ip) = url_ ->
  fetched_plain (drop (length (log s)) (log (snd (run fo ip t s)))) rg ->
  WatchValues.lastValue (watch (snd (run fo ip t s))) = Some (decode (bytes_of rg)) /\
  fst (run fo ip t s)
    = by_content decode rg (WatchValues.lastValue (watch s)) (getResolvedInput ip).
Proof.
  intros E. rewrite (run_url _ _ _ _ E).
  set (p := path (getResolvedInput ip)).
  pose proof (probe_outcome_total fo t p s) as O.
  remember (probe fo t p Locals.init s) as po eqn:Epo.
  destruct O as [Hp | e w Hp Hs | r w Hp Hs Hge | r w Hp Hs Hlt Hn Hsup
                 | r w Hp Hs Hlt Hok Hu | r w w1 Hp Hs Hlt Hok Hc Hv
                 | r w Hp Hs Hlt Hok He Hl];
    try (cbn [fst snd log logged with_watch]; rewrite drop_app_length;
         intros F; apply fetched_plain_one in F as (F & _); discriminate F).
  - rewrite fetch_eq.
    destruct (sendRequest (getRequest fo t p) (world s)) as [[e|r] wg] eqn:Hg.
    + cbn. rewrite drop_app_length. intros F.
      apply fetched_plain_one in F as (_ & F & _). discriminate F.
    + destruct (Response.ok r) eqn:Hok.
      * cbn. rewrite drop_app_length. intros F.
        apply fetched_plain_one in F as (_ & F & _). injection F as <-.
        unfold by_content. destruct (strict_ne _ _); auto.
      * cbn. rewrite drop_app_length. intros F.
        apply fetched_plain_one in F as (_ & F & Hok'). injection F as <-. congruence.
  - rewrite fetch_eq. cbn [world with_watch logged].
    destruct (sendRequest (getRequest fo t p) w) as [[e|rg'] wg];
      [|destruct (Response.ok rg')]; cbn; rewrite <- app_assoc, drop_app_length;
      intros F; apply fetched_plain_two in F as ((F1 & F2) & _);
      destruct Hc; congruence.
  - rewrite fetch_eq. cbn [world with_watch logged].
    destruct (sendRequest (getRequest fo t p) w) as [[e|rg'] wg] eqn:Hg.
    + cbn. rewrite <- app_assoc, drop_app_length. intros F.
      apply fetched_plain_two in F as (_ & _ & F & _). discriminate F.
    + destruct (Response.ok rg') eqn:Hokg.
      * cbn. rewrite <- app_assoc, drop_app_length. intros F.
        apply fetched_plain_two in F as (_ & _ & F & _). injection F as <-.
        rewrite record_support_lastValue.
        unfold by_content. destruct (strict_ne _ _); auto.
      * cbn. rewrite <- app_assoc, drop_app_length. intros F.
        apply fetched_plain_two in F as (_ & _ & F & Hok'). injection F as <-.
        congruence.
Qed.

Lemma by_content_same rg text input :
  decode (bytes_of rg) = text ->
  by_content decode rg (Some text) input = SpecError not_modified rg.
Proof.
  intros <-. unfold by_content.
  rewrite (proj2 (strict_ne_false _ _) eq_refl). reflexivity.
Qed.

Lemma by_content_differs rg last input :
  last <> Some (decode (bytes_of rg)) ->
  by_content decode rg last input = SpecResponse (Some (bytes_of rg)) input.
Proof.
  intros H. unfold by_content.
  rewrite (proj2 (strict_ne_true _ _)) by congruence. reflexivity.
Qed.

Lemma run_plain_poll fo ip t s rg :
  type (getResolvedInput ip) = url_ ->
  plain_poll sendRequest mergeHeaders fo t (path (getResolvedInput ip)) s rg ->
  WatchValues.lastValue (watch (snd (run fo ip t s))) = Some (decode (bytes_of rg)) /\
  fst (run fo ip t s)
    = by_content decode rg (WatchValues.lastValue (watch s)) (getResolvedInput ip).
Proof.
  intros E. unfold plain_poll. destruct (probing (watch s)) eqn:Hp.
  - intros (r & w & wg & Hs & Hlt & Hok & He & Hl & Hg & Hokg).
    rewrite (run_undetermined_fetched _ _ _ _ _ _ _ _ E Hp Hs Hlt Hok He Hl Hg Hokg).
    split; reflexivity.
  - intros (wg & Hg & Hokg).
    rewrite (run_url _ _ _ _ E), (probe_skipped _ _ _ _ _ Hp), fetch_eq, Hg, Hokg.
    unfold by_content, finish. cbn.
    destruct (strict_ne _ _); split; reflexivity.
Qed.

(** C8 (amended): when the comparison of contents runs after a successful
    GET, [lastValue] becomes the decoded body whether or not it equals the
    previous value.  So for a URL source whose server supplies no validators
    and two consecutive polls that each return a body: [lastValue] after
    each poll is the decoded text of the body it fetched; the second poll
    gives not-modified when the two bodies are identical, and more
    generally when they decode to the same text; it gives the content result
    with the new buffer when the decoded texts differ; the first poll gives
    the content result whenever its text differs from the value stored
    before it (always so in a fresh session). *)
Theorem content_fallback_tracks_last_body fo ip t s fo' t' s1 rg1 rg2 :
  type (getResolvedInput ip) = url_ ->
  plain_poll sendRequest mergeHeaders fo t (path (getResolvedInput ip)) s rg1 ->
  watch s1 = watch (snd (run fo ip t s)) ->
  plain_poll sendRequest mergeHeaders fo' t' (path (getResolvedInput ip)) s1 rg2 ->
  let text1 := decode (bytes_of rg1) in
  let text2 := decode (bytes_of rg2) in
  WatchValues.lastValue (watch (snd (run fo ip t s))) = Some text1 /\
  (WatchValues.lastValue (watch s) <> Some text1 ->
   fst (run fo ip t s) = SpecResponse (Some (bytes_of rg1)) (getResolvedInput ip)) /\
  WatchValues.lastValue (watch (snd (run fo' ip t' s1))) = Some text2 /\
  (bytes_of rg2 = bytes_of rg1 ->
   fst (run fo' ip t' s1) = SpecError not_modified rg2) /\
  (text2 = text1 -> fst (run fo' ip t' s1) = SpecError not_modified rg2) /\
  (text2 <> text1 ->
   fst (run fo' ip t' s1) = SpecResponse (Some (bytes_of rg2)) (getResolvedInput ip)).
Proof.
  intros E F1 Hw F2 text1 text2.
  destruct (run_plain_poll _ _ _ _ _ E F1) as [L1 R1].
  destruct (run_plain_poll _ _ _ _ _ E F2) as [L2 R2].
  rewrite Hw, L1 in R2. fold text1 in R2.
  split; [exact L1|]. split; [|split; [exact L2|split; [|split]]].
  - intros Hd. rewrite R1. apply by_content_differs. exact Hd.
  - intros Heq. rewrite R2. apply by_content_same.
    unfold text1. rewrite Heq. reflexivity.
  - intros Heq. rewrite R2. apply by_content_same. exact Heq.
  - intros Hd. rewrite R2. apply by_content_differs. fold text2. congruence.
Qed.

(** * Further properties of the function *)

Lemma fetch_outcome_total fo t p v s :
  fetch_outcome sendRequest decode encode fo t p v s (fetch fo t p v s).
Proof.
  rewrite fetch_eq.
  destruct (sendRequest (getRequest fo t p) (world s)) as [[e|rg] w] eqn:Hs.
  - apply fetch_failed. exact Hs.
  - destruct (Response.ok rg) eqn:Hok.
    + destruct (Locals.hasChanged v) as [b|] eqn:Hc.
      * apply fetch_decided; assumption.
      * apply fetch_compared; assumption.
    + apply fetch_not_ok; assumption.
Qed.

(** Case analysis over every way through a call on a URL: the goal is
    split along the outcomes of the probe and of the fetch, with the result
    and the final state written out. *)
Ltac url_paths E :=
  rewrite ?(run_url _ _ _ _ E);
  match goal with
  | |- context [headProbe ?sr ?mh ?enc ?fo ?t ?p Locals.init ?s] =>
      let O := fresh "O" in
      let po := fresh "po" in
      let Epo := fresh "Epo" in
      pose proof (probe_outcome_total fo t p s) as O;
      remember (headProbe sr mh enc fo t p Locals.init s) as po eqn:Epo;
      clear Epo;
      destruct O as [?Hp | ?e ?w ?Hp ?Hs | ?r ?w ?Hp ?Hs ?Hge
                     | ?r ?w ?Hp ?Hs ?Hlt ?Hn ?Hsup
                     | ?r ?w ?Hp ?Hs ?Hlt ?Hok ?Hu
                     | ?r ?w ?w1 ?Hp ?Hs ?Hlt ?Hok ?Hc ?Hv
                     | ?r ?w ?Hp ?Hs ?Hlt ?Hok ?He ?Hl]
  end;
  try match goal with
  | |- context [getFetch ?sr ?dec ?enc ?fo ?t ?p ?v ?s1] =>
      let F := fresh "F" in
      let fe := fresh "fe" in
      let Efe := fresh "Efe" in
      pose proof (fetch_outcome_total fo t p v s1) as F;
      remember (getFetch sr dec enc fo t p v s1) as fe eqn:Efe;
      clear Efe;
      destruct F as [?e ?wg ?Hg | ?rg ?wg ?Hg ?Hokg
                     | ?rg ?wg ?Hg ?Hokg ?Hh | ?rg ?wg ?b ?Hg ?Hokg ?Hh];
      cbn [Locals.hasChanged] in *; try discriminate
  end;
  cbn [fst snd watch world log logged with_watch finish Locals.response
       Locals.hasChanged Locals.arrayBuffer].

Lemma added_app s s' new : log s' = log s ++ new -> added s s' = new.
Proof. unfold added. intros ->. apply drop_app_length. Qed.

(** X1: a call makes no transport call on a file or raw input, and at most
    two on a URL, never the fetch before the probe: the fetch alone when the
    probe is skipped (no truthy [lastValue], or HEAD known as unsupported),
    otherwise the probe alone or the probe followed by the fetch.  Every
    request goes to the resolved path with the timeout of the caller, and
    the log of earlier exchanges is kept. *)
Theorem at_most_probe_then_fetch fo ip t s :
  let s' := snd (run fo ip t s) in
  log s' = log s ++ added s s' /\
  (if decide (type (getResolvedInput ip) = url_)
   then if probing (watch s)
        then map phase (added s s') = [HEAD] \/ map phase (added s s') = [HEAD; GET]
        else map phase (added s s') = [GET]
   else added s s' = []) /\
  Forall (fun e => url (request e) = path (getResolvedInput ip) /\
                   timeout (request e) = t) (added s s').
Proof.
  intros s'. subst s'.
  destruct (decide (type (getResolvedInput ip) = url_)) as [E|E].
  - pose proof (run_url_log fo ip t s E) as L. cbv zeta in L.
    destruct (probing (watch s)).
    + destruct L as (res & [L | (res' & L)]); rewrite (added_app _ _ _ L);
        (split; [exact L|]); (split; [auto|]); repeat constructor.
    + destruct L as (res & L). rewrite (added_app _ _ _ L).
      split; [exact L|]. split; [reflexivity|]. repeat constructor.
  - rewrite (run_notUrl _ _ _ _ E). cbn [snd].
    assert (A : added s (with_watch
                {| WatchValues.headers := WatchValues.headers (watch s);
                   WatchValues.isHeadMethodSupported :=
                     WatchValues.isHeadMethodSupported (watch s);
                   WatchValues.lastValue :=
                     if negb (truthy (WatchValues.lastValue (watch s)))
                     then Some (InputType_string (type (getResolvedInput ip)))
                     else WatchValues.lastValue (watch s) |} s) = []).
    { apply added_app. cbn. rewrite app_nil_r. reflexivity. }
    rewrite A. cbn. rewrite app_nil_r. repeat split; constructor.
Qed.

Ltac simpl_added :=
  unfold added; cbn [log logged with_watch];
  rewrite <- ?app_assoc, ?drop_app_length; cbn [app].

Ltac simpl_watch :=
  cbn [set_lastValue set_header set_isHeadMethodSupported WatchValues.headers
       WatchValues.lastValue WatchValues.isHeadMethodSupported].

(** ** The stored validators *)

Lemma validators_changed_inv r (w w1 : WatchValues.t) :
  validators r w = (Some true, w1) ->
  (exists e,
     Headers.get (Response.headers r) "ETag" = Some e /\ e <> "" /\
     Some e <> Headers.get (WatchValues.headers w) "If-None-Match" /\
     w1 = set_header "If-None-Match" e w) \/
  (exists l,
     carries r "ETag" = false /\
     Headers.get (Response.headers r) "Last-Modified" = Some l /\ l <> "" /\
     Some l <> Headers.get (WatchValues.headers w) "If-Modified-Since" /\
     w1 = set_header "If-Modified-Since" l w).
Proof.
  intros Hv.
  destruct (validators_cases r w)
    as [(Hv' & _) | [(e & He & Hne & Hcmp & Hv') | [(l & Hce & Hl & Hne & Hcmp & Hv')
        | (_ & _ & Hv')]]]; rewrite Hv' in Hv; try discriminate.
  - left. exists e. injection Hv as <-. auto.
  - right. exists l. injection Hv as <-. auto 6.
Qed.

(** How the stored headers move in one call: not at all, or one of the two
    validators takes the value the probe response carried. *)
Lemma run_headers fo ip t s :
  let h := WatchValues.headers (watch s) in
  let h' := WatchValues.headers (watch (snd (run fo ip t s))) in
  h' = h \/
  (exists req r e,
     In {| phase := HEAD; request := req; result := inr r |}
        (added s (snd (run fo ip t s))) /\
     Headers.get (Response.headers r) "ETag" = Some e /\ e <> "" /\
     Some e <> Headers.get h "If-None-Match" /\
     h' = Headers.set h "If-None-Match" e) \/
  (exists req r l,
     In {| phase := HEAD; request := req; result := inr r |}
        (added s (snd (run fo ip t s))) /\
     carries r "ETag" = false /\
     Headers.get (Response.headers r) "Last-Modified" = Some l /\ l <> "" /\
     Some l <> Headers.get h "If-Modified-Since" /\
     h' = Headers.set h "If-Modified-Since" l).
Proof.
  intros h h'. subst h h'.
  destruct (decide (type (getResolvedInput ip) = url_)) as [E|E].
  2:{ rewrite (run_notUrl _ _ _ _ E). left. reflexivity. }
  url_paths E;
    try (left; simpl_watch; rewrite ?record_support_headers; reflexivity).
  all: apply validators_changed_inv in Hv
         as [(x & Hx & Hne & Hcmp & ->) | (x & Hce & Hx & Hne & Hcmp & ->)];
       rewrite record_support_headers in Hcmp;
       [right; left | right; right]; do 3 eexists;
       (split; [simpl_added; left; reflexivity|]);
       cbn [set_header WatchValues.headers]; rewrite record_support_headers;
       repeat split; first [eassumption | reflexivity].
Qed.

Lemma Headers_get_set (h : Headers.t) name value name' :
  Headers.get (Headers.set h name value) name' =
    if decide (Headers.lower name = Headers.lower name')
    then Some value else Headers.get h name'.
Proof.
  unfold Headers.get, Headers.set. rewrite lookup_insert.
  destruct (decide (Headers.lower name = Headers.lower name')); reflexivity.
Qed.

Lemma run_lastValue fo ip t s :
  WatchValues.lastValue (watch (snd (run fo ip t s)))
    = WatchValues.lastValue (watch s) \/
  is_Some (WatchValues.lastValue (watch (snd (run fo ip t s)))).
Proof.
  destruct (decide (type (getResolvedInput ip) = url_)) as [E|E].
  - url_paths E; simpl_watch; rewrite ?record_support_lastValue; eauto.
    all: apply validators_changed_inv in Hv
           as [(x & _ & _ & _ & ->) | (x & _ & _ & _ & _ & ->)];
         simpl_watch; rewrite record_support_lastValue; auto.
  - rewrite (run_notUrl _ _ _ _ E). cbn.
    destruct (truthy (WatchValues.lastValue (watch s))); cbn; eauto.
Qed.

(** X2: the watch values never forget over a session.  Whatever calls are
    made, a header stored in [watch.headers] stays stored, every header other
    than [If-None-Match] and [If-Modified-Since] keeps its value, and a
    [lastValue] that was set stays set. *)
Theorem stored_values_are_never_cleared
    (calls : list (option RequestInit.t * InputPath * option Z)) s :
  let s' := session (fun c => run c.1.1 c.1.2 c.2) calls s in
  (forall name,
     is_Some (Headers.get (WatchValues.headers (watch s)) name) ->
     is_Some (Headers.get (WatchValues.headers (watch s')) name)) /\
  (forall name,
     Headers.lower name <> "if-none-match" ->
     Headers.lower name <> "if-modified-since" ->
     Headers.get (WatchValues.headers (watch s')) name
       = Headers.get (WatchValues.headers (watch s)) name) /\
  (is_Some (WatchValues.lastValue (watch s)) ->
   is_Some (WatchValues.lastValue (watch s'))).
Proof.
  revert s. induction calls as [|[[fo ip] t] rest IH]; intros s; cbn [session].
  { auto. }
  cbn [fst snd]. destruct (IH (snd (run fo ip t s))) as (IH1 & IH2 & IH3).
  pose proof (run_headers fo ip t s) as H. cbv zeta in H.
  pose proof (run_lastValue fo ip t s) as L.
  split; [|split].
  - intros name Hn. apply IH1.
    destruct H as [-> | [(req & r & e & _ & _ & _ & _ & ->)
                       | (req & r & l & _ & _ & _ & _ & _ & ->)]];
      rewrite ?Headers_get_set; try case_decide; eauto.
  - intros name N1 N2. rewrite (IH2 name N1 N2).
    destruct H as [-> | [(req & r & e & _ & _ & _ & _ & ->)
                       | (req & r & l & _ & _ & _ & _ & _ & ->)]];
      rewrite ?Headers_get_set; try case_decide; try reflexivity.
    + exfalso. apply N1. symmetry. assumption.
    + exfalso. apply N2. symmetry. assumption.
  - intros Hl. apply IH3. destruct L as [-> | L]; assumption.
Qed.

(** X3: in one call at most one stored validator changes, and only to what
    the HEAD probe of that call observed: [If-None-Match] takes the entity
    tag of the probe response, [If-Modified-Since] takes its modification
    date and only when that response carried no entity tag. *)
Theorem validator_overwritten_only_by_probe fo ip t s :
  let h := WatchValues.headers (watch s) in
  let h' := WatchValues.headers (watch (snd (run fo ip t s))) in
  (Headers.get h' "If-None-Match" <> Headers.get h "If-None-Match" ->
   exists req r,
     In {| phase := HEAD; request := req; result := inr r |}
        (added s (snd (run fo ip t s))) /\
     carries r "ETag" = true /\
     Headers.get h' "If-None-Match" = Headers.get (Response.headers r) "ETag" /\
     Headers.get h' "If-Modified-Since" = Headers.get h "If-Modified-Since") /\
  (Headers.get h' "If-Modified-Since" <> Headers.get h "If-Modified-Since" ->
   exists req r,
     In {| phase := HEAD; request := req; result := inr r |}
        (added s (snd (run fo ip t s))) /\
     carries r "ETag" = false /\
     carries r "Last-Modified" = true /\
     Headers.get h' "If-Modified-Since"
       = Headers.get (Response.headers r) "Last-Modified" /\
     Headers.get h' "If-None-Match" = Headers.get h "If-None-Match").
Proof.
  intros h h'. subst h h'.
  pose proof (run_headers fo ip t s) as H. cbv zeta in H.
  destruct H as [-> | [(req & r & e & Hin & He & Hne & Hcmp & ->)
                     | (req & r & l & Hin & Hce & Hl & Hne & Hcmp & ->)]].
  - split; intros N; destruct (N eq_refl).
  - rewrite !Headers_get_set. cbn. split; intros N; [|destruct (N eq_refl)].
    exists req, r. repeat split; auto.
    eapply carries_Some; eassumption.
  - rewrite !Headers_get_set. cbn. split; intros N; [destruct (N eq_refl)|].
    exists req, r. repeat split; auto.
    eapply carries_Some; eassumption.
Qed.

(** ** Learning whether HEAD is supported *)

Lemma record_support_unknown r (w : WatchValues.t) :
  WatchValues.isHeadMethodSupported w = None ->
  WatchValues.isHeadMethodSupported (record_support r w) = Some (Response.ok r).
Proof. unfold record_support. intros ->. reflexivity. Qed.

Lemma validators_changed_support r (w w1 : WatchValues.t) :
  validators r w = (Some true, w1) ->
  WatchValues.isHeadMethodSupported w1 = WatchValues.isHeadMethodSupported w /\
  WatchValues.lastValue w1 = WatchValues.lastValue w.
Proof.
  intros Hv. apply validators_changed_inv in Hv
    as [(x & _ & _ & _ & ->) | (x & _ & _ & _ & _ & ->)]; split; reflexivity.
Qed.

Ltac in_added H :=
  unfold added in H; cbn [log logged with_watch] in H;
  rewrite <- ?app_assoc, ?drop_app_length in H; cbn [app] in H;
  repeat (destruct H as [H|H];
          [try discriminate H; try (injection H as ? ?; subst)|]);
  try (destruct H).

(** X4: while HEAD support is unknown, a call learns it from the HEAD probe
    alone, and only when the probe is answered with a status below 300: the
    flag then becomes the [ok] of that response (true for 200-299, false
    below 200).  A rejected probe, a probe answered with 300 or more, or a
    call without probe leave it unknown. *)
Theorem head_support_learnt_from_probe fo ip t s b :
  WatchValues.isHeadMethodSupported (watch s) = None ->
  WatchValues.isHeadMethodSupported (watch (snd (run fo ip t s))) = Some b <->
  exists req r,
    In {| phase := HEAD; request := req; result := inr r |}
       (added s (snd (run fo ip t s))) /\
    Response.status r < 300 /\ Response.ok r = b.
Proof.
  intros Hu.
  destruct (decide (type (getResolvedInput ip) = url_)) as [E|E].
  2:{ rewrite (run_notUrl _ _ _ _ E). cbn [snd with_watch watch].
      simpl_watch. rewrite Hu. split; [discriminate|].
      intros (req & r & Hin & _). unfold added in Hin. cbn [log with_watch] in Hin.
      rewrite drop_all in Hin. destruct Hin. }
  url_paths E; simpl_watch;
    rewrite ?(proj1 (validators_changed_support _ _ _ Hv));
    rewrite ?(record_support_unknown _ _ Hu); rewrite ?Hu;
    try congruence;
    (split; [intros H; try discriminate H; injection H as <-
            |intros (req & r0 & Hin & Hlt0 & Hok0); in_added Hin;
             try lia; try congruence]).
  all: try (do 2 eexists; split; [simpl_added; left; reflexivity|]; auto).
Qed.

(** ** A change whose fetch fails *)

Lemma probing_after_supported_probe r (w w' : WatchValues.t) :
  probing w = true ->
  Response.ok r = true ->
  WatchValues.lastValue w' = WatchValues.lastValue w ->
  WatchValues.isHeadMethodSupported w'
    = WatchValues.isHeadMethodSupported (record_support r w) ->
  probing w' = true.
Proof.
  unfold probing, record_support. intros Hp Hok -> ->.
  apply andb_true_iff in Hp as [Hl Hs]. rewrite Hl. cbn.
  destruct (WatchValues.isHeadMethodSupported w) as [[|]|] eqn:Hq; cbn in *;
    rewrite ?Hq, ?Hok; cbn; auto.
Qed.

(** X5: the new entity tag is stored as soon as the probe reports it, before
    the fetch.  When the probe sees a new tag and the fetch then fails
    (rejected, or answered not-ok), the call returns not-ok but
    [If-None-Match] already holds the new tag; the next poll, whose probe
    sees the same tag, returns not-modified without fetching: the changed
    content is not delivered by either call. *)
Theorem change_lost_when_fetch_fails fo ip t s r w e fo' t' s1 r2 w2 :
  type (getResolvedInput ip) = url_ ->
  probing (watch s) = true ->
  sendRequest
    (headRequest mergeHeaders fo t (path (getResolvedInput ip))
       (WatchValues.headers (watch s))) (world s) = (inr r, w) ->
  Response.ok r = true ->
  Headers.get (Response.headers r) "ETag" = Some e ->
  e <> "" ->
  Some e <> Headers.get (WatchValues.headers (watch s)) "If-None-Match" ->
  match fst (sendRequest (getRequest fo t (path (getResolvedInput ip))) w) with
  | inl _ => True
  | inr rg => Response.ok rg = false
  end ->
  watch s1 = watch (snd (run fo ip t s)) ->
  sendRequest
    (headRequest mergeHeaders fo' t' (path (getResolvedInput ip))
       (WatchValues.headers (watch s1))) (world s1) = (inr r2, w2) ->
  Response.ok r2 = true ->
  Headers.get (Response.headers r2) "ETag" = Some e ->
  isNotOk (fst (run fo ip t s)) /\
  Headers.get (WatchValues.headers (watch s1)) "If-None-Match" = Some e /\
  fst (run fo' ip t' s1) = SpecError not_modified r2 /\
  map phase (added s1 (snd (run fo' ip t' s1))) = [HEAD].
Proof.
  intros E Hp Hs Hok He Hne Hcmp Hfail Hw Hs2 Hok2 He2.
  pose proof (ok_status _ Hok) as [_ Hlt].
  pose proof (ok_status _ Hok2) as [_ Hlt2].
  assert (Hv : validators r (record_support r (watch s))
               = (Some true, set_header "If-None-Match" e (record_support r (watch s)))).
  { rewrite (validators_etag _ _ _ He Hne), record_support_headers.
    rewrite (proj2 (strict_ne_true _ _) Hcmp). reflexivity. }
  destruct (run_changed_by_validators _ _ _ _ _ _ _ E Hp Hs Hlt (or_introl Hok) Hv)
    as [Hw1 Hres].
  rewrite Hw1 in Hw.
  assert (Hnok : isNotOk (fst (run fo ip t s))).
  { destruct Hres as [Hn | (rg & Hg & Hokg & _)]; [exact Hn|].
    rewrite Hg in Hfail. congruence. }
  assert (Hstored : Headers.get (WatchValues.headers (watch s1)) "If-None-Match"
                    = Some e).
  { rewrite Hw. cbn [set_header WatchValues.headers].
    rewrite Headers_get_set. cbn. reflexivity. }
  assert (Hp1 : probing (watch s1) = true).
  { apply (probing_after_supported_probe r (watch s)); auto; rewrite Hw;
      simpl_watch; rewrite ?record_support_lastValue; reflexivity. }
  assert (Hu : unchanged_by_validators r2 (watch s1)).
  { left. split; [eapply carries_Some; eassumption | congruence]. }
  rewrite (run_unchanged_by_validators _ _ _ _ _ _ E Hp1 Hs2 Hlt2 (or_introl Hok2) Hu).
  split; [exact Hnok|]. split; [exact Hstored|]. split; [reflexivity|].
  cbn [snd]. simpl_added. reflexivity.
Qed.


(** X7: when the transport rejects a request, on the probe or on the fetch,
    the call returns the not-ok result with a response built from the
    message of the error.  That response has status 200 and reports
    [ok]; the message is its body.  [lastValue] is left as it was. *)
Theorem rejected_request_gives_message_response fo ip t s x err :
  In x (added s (snd (run fo ip t s))) ->
  result x = inl err ->
  fst (run fo ip t s) = SpecError not_ok (new_Response encode (message err)) /\
  Response.status (new_Response encode (message err)) = 200 /\
  Response.ok (new_Response encode (message err)) = true /\
  Response.body (new_Response encode (message err)) = Some (encode (message err)) /\
  WatchValues.lastValue (watch (snd (run fo ip t s)))
    = WatchValues.lastValue (watch s).
Proof.
  destruct (decide (type (getResolvedInput ip) = url_)) as [E|E].
  2:{ rewrite (run_notUrl _ _ _ _ E). unfold added. cbn [snd log with_watch].
      rewrite drop_all. intros []. }
  url_paths E; intros Hin Hres; in_added Hin; cbn [result] in Hres;
    try discriminate Hres; injection Hres as <-;
    simpl_watch; rewrite ?record_support_lastValue;
    rewrite ?(proj2 (validators_changed_support _ _ _ Hv));
    rewrite ?record_support_lastValue; repeat split; reflexivity.
Qed.

(** X8: an empty body turns the next poll into a first poll.  When the
    comparison of contents stores the empty string (the fetched body decodes
    to no text), [lastValue] is falsy, so the next call sends no HEAD probe
    and goes straight to the GET fetch. *)
Theorem empty_body_disables_probe fo ip t s rg fo' t' s1 :
  type (getResolvedInput ip) = url_ ->
  fetched_plain (added s (snd (run fo ip t s))) rg ->
  decode (bytes_of rg) = "" ->
  watch s1 = watch (snd (run fo ip t s)) ->
  WatchValues.lastValue (watch s1) = Some "" /\
  probing (watch s1) = false /\
  map phase (added s1 (snd (run fo' ip t' s1))) = [GET].
Proof.
  intros E F Hempty Hw. unfold added in F.
  destruct (run_fetched_plain _ _ _ _ _ E F) as [L _].
  rewrite Hempty, <- Hw in L.
  assert (Hp : probing (watch s1) = false) by (unfold probing; rewrite L; reflexivity).
  split; [exact L|]. split; [exact Hp|].
  pose proof (run_url_log fo' ip t' s1 E) as G. cbv zeta in G. rewrite Hp in G.
  destruct G as (res & G). rewrite (added_app _ _ _ G). reflexivity.
Qed.

(** ** What a result says about the call *)

Lemma isContent_content b i : isContent (SpecResponse b i).
Proof. unfold isContent. cbn. eauto. Qed.

Lemma error_is_not_content e r : ~ isContent (SpecError e r).
Proof. intros (H & _). discriminate H. Qed.

Lemma isNotModified_error_inv e r : isNotModified (SpecError e r) -> e = not_modified.
Proof. intros (H & _). cbn in H. congruence. Qed.

(** X9: [lastValue] moves only with a content result.  A call that returns
    not-modified or not-ok leaves [lastValue] as it was, and a call that
    returns not-modified leaves the stored validators as they were too. *)
Theorem lastValue_moves_only_with_content fo ip t s :
  ~ isContent (fst (run fo ip t s)) ->
  WatchValues.lastValue (watch (snd (run fo ip t s)))
    = WatchValues.lastValue (watch s) /\
  (isNotModified (fst (run fo ip t s)) ->
   WatchValues.headers (watch (snd (run fo ip t s)))
     = WatchValues.headers (watch s)).
Proof.
  destruct (decide (type (getResolvedInput ip) = url_)) as [E|E].
  2:{ rewrite (run_notUrl _ _ _ _ E). intros H. destruct H. apply isContent_content. }
  url_paths E; try congruence; intros Hnc;
    try (destruct b; try discriminate Hh);
    try (destruct (strict_ne _ _) eqn:Hne);
    cbn [bool_decide decide_rel] in Hnc |- *;
    rewrite ?bool_decide_eq_true_2 in Hnc |- * by reflexivity;
    rewrite ?bool_decide_eq_false_2 in Hnc |- * by discriminate;
    try (destruct Hnc; apply isContent_content);
    simpl_watch;
    rewrite ?(proj2 (validators_changed_support _ _ _ Hv));
    rewrite ?record_support_lastValue, ?record_support_headers;
    try (rewrite ?record_support_lastValue in Hne;
         apply strict_ne_false in Hne; rewrite <- Hne);
    (split; [reflexivity|]);
    try reflexivity;
    try (intros Hm; apply isNotModified_error_inv in Hm; discriminate Hm).
Qed.

Ltac last_added :=
  first [ exists []; do 2 eexists; split; [simpl_added; reflexivity|]
        | eexists [_]; do 2 eexists; split; [simpl_added; reflexivity|] ].

(** X10: on a URL a content result always comes from the GET fetch of the
    same call: the last exchange of the call is the fetch, answered with an
    ok response, and the buffer of the result holds the bytes of that
    response, the empty buffer when the response has no body. *)
Theorem url_content_carries_fetched_bytes fo ip t s :
  type (getResolvedInput ip) = url_ ->
  isContent (fst (run fo ip t s)) ->
  exists pre req rg,
    added s (snd (run fo ip t s))
      = pre ++ [ {| phase := GET; request := req; result := inr rg |} ] /\
    Response.ok rg = true /\
    fst (run fo ip t s) = SpecResponse (Some (bytes_of rg)) (getResolvedInput ip) /\
    (Response.body rg = None -> arrayBuffer (fst (run fo ip t s)) = Some []).
Proof.
  intros E.
  url_paths E; try congruence; intros Hcont;
    try (destruct (error_is_not_content _ _ Hcont));
    try (destruct b; try discriminate Hh);
    try (destruct (strict_ne _ _) eqn:Hne);
    cbn [bool_decide decide_rel] in Hcont |- *;
    rewrite ?bool_decide_eq_true_2 in Hcont |- * by reflexivity;
    rewrite ?bool_decide_eq_false_2 in Hcont |- * by discriminate;
    try (destruct (error_is_not_content _ _ Hcont));
    last_added; (split; [assumption|]); (split; [reflexivity|]);
    intros Hb; unfold bytes_of; rewrite Hb; reflexivity.
Qed.

(** X11: a not-modified result always carries the response of the last
    exchange of the call, and that response has a status below 300.  It
    comes either from the probe, whose validator equals the stored one, or
    from an ok fetch whose decoded body equals the previous [lastValue]. *)
Theorem not_modified_comes_from_validator_or_content fo ip t s :
  isNotModified (fst (run fo ip t s)) ->
  exists pre x r,
    added s (snd (run fo ip t s)) = pre ++ [x] /\
    result x = inr r /\
    fst (run fo ip t s) = SpecError not_modified r /\
    Response.status r < 300 /\
    match phase x with
    | HEAD => unchanged_by_validators r (watch s)
    | GET =>
        Response.ok r = true /\
        WatchValues.lastValue (watch s) = Some (decode (bytes_of r))
    end.
Proof.
  destruct (decide (type (getResolvedInput ip) = url_)) as [E|E].
  2:{ rewrite (run_notUrl _ _ _ _ E). intros H.
      destruct (content_is_not_not_modified _ _ H). }
  url_paths E; try congruence; intros Hm;
    try (apply isNotModified_error_inv in Hm; discriminate Hm);
    try (destruct b; try discriminate Hh);
    try (destruct (strict_ne _ _) eqn:Hne);
    cbn [bool_decide decide_rel] in Hm |- *;
    rewrite ?bool_decide_eq_true_2 in Hm |- * by reflexivity;
    rewrite ?bool_decide_eq_false_2 in Hm |- * by discriminate;
    try (destruct (content_is_not_not_modified _ _ Hm));
    last_added; cbn [result phase]; (split; [reflexivity|]);
    (split; [reflexivity|]);
    try (split; [assumption|assumption]);
    (split; [apply ok_status; assumption|]);
    (split; [assumption|]);
    rewrite ?record_support_lastValue in Hne;
    apply strict_ne_false in Hne; congruence.
Qed.

(** X12: a call that ends not-ok at the probe (the probe is its only
    exchange) leaves the watch values exactly as they were. *)
Theorem probe_failure_leaves_watch fo ip t s x :
  added s (snd (run fo ip t s)) = [x] ->
  phase x = HEAD ->
  isNotOk (fst (run fo ip t s)) ->
  watch (snd (run fo ip t s)) = watch s.
Proof.
  destruct (decide (type (getResolvedInput ip) = url_)) as [E|E].
  2:{ rewrite (run_notUrl _ _ _ _ E). unfold added. cbn [snd log with_watch].
      rewrite drop_all. discriminate. }
  url_paths E; try congruence; simpl_added; intros Hx Hph Hn;
    try discriminate Hx;
    try (injection Hx as <-; discriminate Hph);
    try reflexivity.
  destruct Hn as (Hn & _). discriminate Hn.
Qed.

(** ** The first revalidation *)

Lemma run_first_fetch fo ip t s rg wg :
  type (getResolvedInput ip) = url_ ->
  probing (watch s) = false ->
  sendRequest (getRequest fo t (path (getResolvedInput ip))) (world s) = (inr rg, wg) ->
  Response.ok rg = true ->
  run fo ip t s =
    (by_content decode rg (WatchValues.lastValue (watch s)) (getResolvedInput ip),
     with_watch (set_lastValue (decode (bytes_of rg)) (watch s))
       (logged s GET (getRequest fo t (path (getResolvedInput ip))) (inr rg) wg)).
Proof.
  intros E Hp Hs Hok.
  rewrite (run_url _ _ _ _ E), (probe_skipped _ _ _ _ _ Hp), fetch_eq, Hs, Hok.
  unfold by_content, finish. cbn.
  destruct (strict_ne _ _); reflexivity.
Qed.

(** X13: validators are learnt from the probe only, so the first
    revalidation always fetches again.  After a first poll that fetched a
    non-empty body, with no [If-None-Match] stored, a second poll whose
    probe carries an entity tag finds it new, stores it, sends the GET and
    returns the content result, identical body or not; [lastValue] keeps the
    text of the first poll. *)
Theorem first_revalidation_fetches_again
    fo ip t s rg1 w1 fo' t' s1 r2 w2 e rg2 wg2 :
  type (getResolvedInput ip) = url_ ->
  truthy (WatchValues.lastValue (watch s)) = false ->
  WatchValues.isHeadMethodSupported (watch s) <> Some false ->
  Headers.get (WatchValues.headers (watch s)) "If-None-Match" = None ->
  sendRequest (getRequest fo t (path (getResolvedInput ip))) (world s) = (inr rg1, w1) ->
  Response.ok rg1 = true ->
  decode (bytes_of rg1) <> "" ->
  watch s1 = watch (snd (run fo ip t s)) ->
  sendRequest
    (headRequest mergeHeaders fo' t' (path (getResolvedInput ip))
       (WatchValues.headers (watch s1))) (world s1) = (inr r2, w2) ->
  Response.ok r2 = true ->
  Headers.get (Response.headers r2) "ETag" = Some e ->
  e <> "" ->
  sendRequest (getRequest fo' t' (path (getResolvedInput ip))) w2 = (inr rg2, wg2) ->
  Response.ok rg2 = true ->
  fst (run fo ip t s) = SpecResponse (Some (bytes_of rg1)) (getResolvedInput ip) /\
  fst (run fo' ip t' s1) = SpecResponse (Some (bytes_of rg2)) (getResolvedInput ip) /\
  map phase (added s1 (snd (run fo' ip t' s1))) = [HEAD; GET] /\
  Headers.get (WatchValues.headers (watch (snd (run fo' ip t' s1)))) "If-None-Match"
    = Some e /\
  WatchValues.lastValue (watch (snd (run fo' ip t' s1))) = Some (decode (bytes_of rg1)).
Proof.
  intros E Hl Hsup Hnone Hg1 Hok1 Htext Hw Hs2 Hok2 He Hne Hg2 Hokg2.
  assert (Hp : probing (watch s) = false) by (unfold probing; rewrite Hl; reflexivity).
  rewrite (run_first_fetch _ _ _ _ _ _ E Hp Hg1 Hok1) in Hw |- *.
  cbn [fst snd watch with_watch] in Hw |- *.
  split.
  { apply by_content_differs. intros H.
    rewrite H in Hl. cbn in Hl. rewrite (bool_decide_eq_false_2 _ Htext) in Hl.
    discriminate Hl. }
  assert (Hp1 : probing (watch s1) = true).
  { unfold probing. rewrite Hw. simpl_watch. cbn.
    rewrite (bool_decide_eq_false_2 _ Htext), (bool_decide_eq_false_2 _ Hsup).
    reflexivity. }
  pose proof (ok_status _ Hok2) as [_ Hlt2].
  assert (Hcmp : Some e <> Headers.get (WatchValues.headers (watch s1)) "If-None-Match").
  { rewrite Hw. simpl_watch. rewrite Hnone. discriminate. }
  assert (Hv : validators r2 (record_support r2 (watch s1))
               = (Some true,
                  set_header "If-None-Match" e (record_support r2 (watch s1)))).
  { rewrite (validators_etag _ _ _ He Hne), record_support_headers.
    rewrite (proj2 (strict_ne_true _ _) Hcmp). reflexivity. }
  rewrite (run_probe_pass _ _ _ _ _ _ E Hp1 Hs2 Hlt2 (or_introl Hok2)), Hv.
  cbv zeta. rewrite bool_decide_eq_false_2 by discriminate.
  rewrite fetch_eq. cbn [world with_watch logged]. rewrite Hg2, Hokg2.
  cbn [Locals.hasChanged fst snd finish Locals.response Locals.arrayBuffer].
  rewrite bool_decide_eq_false_2 by discriminate.
  split; [reflexivity|]. split; [simpl_added; reflexivity|].
  cbn [watch logged with_watch]. simpl_watch.
  rewrite Headers_get_set, record_support_lastValue, Hw. cbn.
  split; reflexivity.
Qed.

End Properties.

(** * The properties on concrete sessions *)

(** C1, second call on a file: the marker is already there and the result is
    still the content result. *)
Lemma notUrl_always_content_witness :
  let s := watching ∅ None (Some "file") [] in
  type (resolve_path "openapi.json") <> url_ /\
  fst (poll None "openapi.json" s)
    = SpecResponse None (resolve_path "openapi.json") /\
  ~ isNotModified (fst (poll None "openapi.json" s)) /\
  log (snd (poll None "openapi.json" s)) = [].
Proof.
  intros s.
  assert (H : type (resolve_path "openapi.json") <> url_)
    by (vm_compute; discriminate).
  split; [exact H|].
  destruct (notUrl_always_content scripted merge_union resolve_path
              string_of_list_byte list_byte_of_string None "openapi.json" None s H)
    as (A & B & C & _).
  repeat split; assumption.
Defined.

(** C2, a first probe answered with 404. *)
Lemma probe_404_leaves_support_unknown_witness :
  let s := watching ∅ None (Some "{}") [inr (plain 404 "")] in
  let u := "https://example.com/openapi.json" in
  fst (poll None u s) = SpecError not_ok (plain 404 "") /\
  WatchValues.isHeadMethodSupported (watch (snd (poll None u s))) <> Some false.
Proof.
  intros s u.
  destruct (probe_404_leaves_support_unknown scripted merge_union resolve_path
              string_of_list_byte list_byte_of_string None u None s
              (plain 404 "") [])
    as (A & _ & C & _); try reflexivity.
  split; assumption.
Defined.

(** C3, a probe answered with 304. *)
Lemma probe_304_is_not_ok_witness :
  let s := watching ∅ (Some true) (Some "{}") [inr (plain 304 "")] in
  let u := "https://example.com/openapi.json" in
  fst (poll None u s) = SpecError not_ok (plain 304 "") /\
  ~ isNotModified (fst (poll None u s)).
Proof.
  intros s u.
  destruct (probe_304_is_not_ok scripted merge_union resolve_path
              string_of_list_byte list_byte_of_string None u None s
              (plain 304 "") [])
    as (A & _ & C & _); try reflexivity.
  split; assumption.
Defined.

(** C4, a probe whose entity tag is the stored one. *)
Lemma unchanged_validators_skip_fetch_witness :
  let s := watching {[ "if-none-match" := "v1" ]} (Some true) (Some "{}")
             [inr (tagged 200 "v1" "")] in
  let u := "https://example.com/openapi.json" in
  unchanged_by_validators (tagged 200 "v1" "") (watch s) /\
  fst (poll None u s) = SpecError not_modified (tagged 200 "v1" "") /\
  map phase (log (snd (poll None u s))) = [HEAD].
Proof.
  intros s u.
  assert (H : unchanged_by_validators (tagged 200 "v1" "") (watch s))
    by (left; split; reflexivity).
  split; [exact H|].
  destruct (unchanged_validators_skip_fetch scripted merge_union resolve_path
              string_of_list_byte list_byte_of_string None u None s
              (tagged 200 "v1" "") [])
    as (A & _ & C & _); try reflexivity; try exact H.
  - left. reflexivity.
  - split; [exact A|]. change (poll None u s) with
      (getSpec scripted merge_union resolve_path string_of_list_byte
         list_byte_of_string None u None s).
    rewrite C. reflexivity.
Defined.

(** C5, three calls after HEAD was found unsupported. *)
Lemma head_support_is_final_witness :
  let s := watching ∅ (Some false) (Some "a")
             [inr (plain 200 "a"); inr (plain 500 ""); inr (plain 200 "b")] in
  let u := "https://example.com/openapi.json" in
  let s' :=
    session
      (fun c : option RequestInit.t * string * option Z =>
         getSpec scripted merge_union resolve_path string_of_list_byte
           list_byte_of_string c.1.1 c.1.2 c.2)
      [(None, u, None); (None, u, None); (None, u, None)] s in
  WatchValues.isHeadMethodSupported (watch s') = Some false /\
  map phase (log s') = [GET; GET; GET].
Proof.
  intros s u s'.
  destruct (head_support_is_final scripted merge_union resolve_path
              string_of_list_byte list_byte_of_string
              [(None, u, None); (None, u, None); (None, u, None)] s false eq_refl)
    as (A & _).
  split; [exact A | reflexivity].
Defined.

(** C6, the first poll of a URL. *)
Lemma first_poll_single_fetch_witness :
  let s := fresh [inr (plain 200 "{}")] in
  let u := "https://example.com/openapi.json" in
  exists res,
    log (snd (poll None u s))
      = [ {| phase := GET;
             request := getRequest None None u;
             result := res |} ] /\
    sent_method (getRequest None None u) = "GET".
Proof.
  intros s u.
  destruct (first_poll_single_fetch scripted merge_union resolve_path
              string_of_list_byte list_byte_of_string None u None s)
    as (res & A & B & _); try reflexivity.
  exists res. split; [exact A | exact B].
Defined.

(** C6 as stated does not hold: with a method named in [fetchOptions] the
    single transport call of a first poll is not a GET. *)
Lemma first_poll_method_can_differ_from_GET :
  let fo := Some {| RequestInit.method := present "POST"; RequestInit.headers := None |} in
  let s := fresh [inr (plain 200 "{}")] in
  let u := "https://example.com/openapi.json" in
  type (resolve_path u) = url_ /\
  WatchValues.lastValue (watch s) = None /\
  map wire_method (log (snd (poll fo u s))) = [Some "POST"] /\
  ~ (exists e, log (snd (poll fo u s)) = [e] /\ wire_method e = Some "GET").
Proof.
  intros fo s u. repeat split.
  intros (e & H & G). vm_compute in H. injection H as <-.
  vm_compute in G. discriminate G.
Qed.

(** C7, a probe answered with a new entity tag and a new modification date:
    only the entity tag is stored. *)
Lemma validators_in_priority_order_witness :
  let r := {| Response.status := 200;
              Response.headers := {[ "etag" := "v2"; "last-modified" := "Tue" ]};
              Response.body := None |} in
  let s := watching {[ "if-none-match" := "v1"; "if-modified-since" := "Mon" ]}
             (Some true) (Some "a") [inr r; inr (plain 200 "a")] in
  let u := "https://example.com/openapi.json" in
  WatchValues.headers (watch (snd (poll None u s)))
    = {[ "if-none-match" := "v2"; "if-modified-since" := "Mon" ]} /\
  ~ isNotModified (fst (poll None u s)).
Proof.
  intros r s u.
  destruct (validators_in_priority_order scripted merge_union resolve_path
              string_of_list_byte list_byte_of_string None u None s r
              [inr (plain 200 "a")])
    as (A & _); try reflexivity.
  - left. reflexivity.
  - destruct (A "v2" eq_refl) as (_ & B); [discriminate|].
    destruct B as (B1 & B2); [vm_compute; discriminate|].
    split; [|exact B2].
    change (poll None u s) with
      (getSpec scripted merge_union resolve_path string_of_list_byte
         list_byte_of_string None u None s).
    rewrite B1. vm_compute. reflexivity.
Defined.

(** C8, three polls of a server without validators: the same body twice,
    then another one. *)
Lemma content_fallback_tracks_last_body_witness :
  let u := "https://example.com/openapi.json" in
  let s := fresh [inr (plain 200 "a");
                  inr (plain 200 ""); inr (plain 200 "a");
                  inr (plain 200 ""); inr (plain 200 "b")] in
  let s1 := snd (poll None u s) in
  let s2 := snd (poll None u s1) in
  fst (poll None u s) = SpecResponse (Some (bytes_of (plain 200 "a"))) (resolve_path u) /\
  fst (poll None u s1) = SpecError not_modified (plain 200 "a") /\
  fst (poll None u s2) = SpecResponse (Some (bytes_of (plain 200 "b"))) (resolve_path u) /\
  WatchValues.lastValue (watch (snd (poll None u s2))) = Some "b".
Proof.
  intros u s s1 s2.
  destruct (content_fallback_tracks_last_body scripted merge_union resolve_path
              string_of_list_byte list_byte_of_string None u None s None None s1
              (plain 200 "a") (plain 200 "a"))
    as (_ & A & _ & B & _); try reflexivity.
  { exists [inr (plain 200 ""); inr (plain 200 "a");
            inr (plain 200 ""); inr (plain 200 "b")].
    split; reflexivity. }
  { exists (plain 200 ""), [inr (plain 200 "a"); inr (plain 200 ""); inr (plain 200 "b")],
           [inr (plain 200 ""); inr (plain 200 "b")].
    repeat split; try reflexivity. left. reflexivity. }
  destruct (content_fallback_tracks_last_body scripted merge_union resolve_path
              string_of_list_byte list_byte_of_string None u None s1 None None s2
              (plain 200 "a") (plain 200 "b"))
    as (_ & _ & C & _ & _ & D); try reflexivity.
  { exists (plain 200 ""), [inr (plain 200 "a"); inr (plain 200 ""); inr (plain 200 "b")],
           [inr (plain 200 ""); inr (plain 200 "b")].
    repeat split; try reflexivity. left. reflexivity. }
  { exists (plain 200 ""), [inr (plain 200 "b")], [].
    repeat split; try reflexivity. left. reflexivity. }
  split; [apply A; vm_compute; discriminate|].
  split; [apply B; reflexivity|].
  split; [apply D; vm_compute; discriminate | exact C].
Defined.

(** C9 as stated does not hold: a not-ok answer to the probe of a source
    whose HEAD support is unknown does not end the call; the fetch goes
    ahead and the call returns the content result. *)
Lemma not_ok_probe_answer_can_end_in_content :
  let s := watching ∅ None (Some "a") [inr (plain 0 ""); inr (plain 200 "b")] in
  let u := "https://example.com/openapi.json" in
  Response.ok (plain 0 "") = false /\
  map result (log (snd (poll None u s))) = [inr (plain 0 ""); inr (plain 200 "b")] /\
  isContent (fst (poll None u s)) /\
  ~ isNotOk (fst (poll None u s)).
Proof.
  intros s u. split; [reflexivity|]. split; [reflexivity|]. split.
  - vm_compute. repeat split; eauto.
  - intros (H & _). vm_compute in H. discriminate H.
Qed.

(** * The further properties on concrete sessions *)

(** X4, a first probe answered with 200. *)
Lemma head_support_learnt_from_probe_witness :
  let s := watching ∅ None (Some "a") [inr (plain 200 ""); inr (plain 200 "a")] in
  let u := "https://example.com/openapi.json" in
  WatchValues.isHeadMethodSupported (watch s) = None /\
  WatchValues.isHeadMethodSupported (watch (snd (poll None u s))) = Some true.
Proof.
  intros s u. split; [reflexivity|].
  apply (proj2 (head_support_learnt_from_probe scripted merge_union resolve_path
                  string_of_list_byte list_byte_of_string None u None s true eq_refl)).
  exists (headRequest merge_union None None u ∅), (plain 200 "").
  split; [left; reflexivity|]. split; reflexivity.
Defined.

(** X5, a new entity tag, a fetch that times out, and the next poll. *)
Lemma change_lost_when_fetch_fails_witness :
  let s := watching {[ "if-none-match" := "v1" ]} (Some true) (Some "a")
             [inr (tagged 200 "v2" ""); inl {| message := "timeout" |}] in
  let u := "https://example.com/openapi.json" in
  let s1 := {| watch := watch (snd (poll None u s));
               world := [inr (tagged 200 "v2" "")];
               log := [] |} in
  isNotOk (fst (poll None u s)) /\
  fst (poll None u s1) = SpecError not_modified (tagged 200 "v2" "") /\
  map phase (added s1 (snd (poll None u s1))) = [HEAD].
Proof.
  intros s u s1.
  destruct (change_lost_when_fetch_fails scripted merge_union resolve_path
              string_of_list_byte list_byte_of_string None u None s
              (tagged 200 "v2" "") [inl {| message := "timeout" |}] "v2"
              None None s1 (tagged 200 "v2" "") [])
    as (A & _ & B & C); try reflexivity; try discriminate.
  split; [exact A|]. split; [exact B|exact C].
Defined.


(** X7, a fetch that times out. *)
Lemma rejected_request_gives_message_response_witness :
  let s := fresh [inl {| message := "timeout" |}] in
  let u := "https://example.com/openapi.json" in
  fst (poll None u s)
    = SpecError not_ok (new_Response list_byte_of_string "timeout") /\
  Response.ok (new_Response list_byte_of_string "timeout") = true.
Proof.
  intros s u.
  destruct (rejected_request_gives_message_response scripted merge_union resolve_path
              string_of_list_byte list_byte_of_string None u None s
              {| phase := GET; request := getRequest None None u;
                 result := inl {| message := "timeout" |} |}
              {| message := "timeout" |})
    as (A & _ & B & _); try reflexivity.
  - left. reflexivity.
  - split; [exact A | exact B].
Defined.

(** X8, a poll that fetched an empty body, and the next poll. *)
Lemma empty_body_disables_probe_witness :
  let s := fresh [inr (plain 200 "")] in
  let u := "https://example.com/openapi.json" in
  let s1 := {| watch := watch (snd (poll None u s));
               world := [inr (plain 200 "a")];
               log := [] |} in
  probing (watch s1) = false /\
  map phase (added s1 (snd (poll None u s1))) = [GET].
Proof.
  intros s u s1.
  destruct (empty_body_disables_probe scripted merge_union resolve_path
              string_of_list_byte list_byte_of_string None u None s (plain 200 "")
              None None s1)
    as (_ & A & B); try reflexivity.
  - exists [], (getRequest None None u).
    split; [reflexivity|]. split; [reflexivity|constructor].
  - split; [exact A | exact B].
Defined.

(** X9, a probe answered with 404. *)
Lemma lastValue_moves_only_with_content_witness :
  let s := watching ∅ None (Some "a") [inr (plain 404 "")] in
  let u := "https://example.com/openapi.json" in
  ~ isContent (fst (poll None u s)) /\
  WatchValues.lastValue (watch (snd (poll None u s))) = Some "a".
Proof.
  intros s u.
  assert (H : ~ isContent (fst (poll None u s))).
  { intros (H & _). vm_compute in H. discriminate H. }
  split; [exact H|].
  destruct (lastValue_moves_only_with_content scripted merge_union resolve_path
              string_of_list_byte list_byte_of_string None u None s H)
    as (A & _).
  exact A.
Defined.

(** X10, a first poll. *)
Lemma url_content_carries_fetched_bytes_witness :
  let s := fresh [inr (plain 200 "a")] in
  let u := "https://example.com/openapi.json" in
  isContent (fst (poll None u s)) /\
  exists rg,
    Response.ok rg = true /\
    fst (poll None u s) = SpecResponse (Some (bytes_of rg)) (resolve_path u).
Proof.
  intros s u.
  assert (H : isContent (fst (poll None u s))).
  { vm_compute. repeat split; eauto. }
  split; [exact H|].
  destruct (url_content_carries_fetched_bytes scripted merge_union resolve_path
              string_of_list_byte list_byte_of_string None u None s eq_refl H)
    as (pre & req & rg & _ & A & B & _).
  exists rg. split; [exact A | exact B].
Defined.

(** X11, a probe whose entity tag is the stored one. *)
Lemma not_modified_comes_from_validator_or_content_witness :
  let s := watching {[ "if-none-match" := "v1" ]} (Some true) (Some "{}")
             [inr (tagged 200 "v1" "")] in
  let u := "https://example.com/openapi.json" in
  isNotModified (fst (poll None u s)) /\
  exists r,
    fst (poll None u s) = SpecError not_modified r /\ Response.status r < 300.
Proof.
  intros s u.
  assert (H : isNotModified (fst (poll None u s))).
  { vm_compute. repeat split; eauto. }
  split; [exact H|].
  destruct (not_modified_comes_from_validator_or_content scripted merge_union
              resolve_path string_of_list_byte list_byte_of_string None u None s H)
    as (pre & x & r & _ & _ & A & B & _).
  exists r. split; [exact A | exact B].
Defined.

(** X12, a probe answered with 404. *)
Lemma probe_failure_leaves_watch_witness :
  let s := watching {[ "if-none-match" := "v1" ]} None (Some "a")
             [inr (plain 404 "")] in
  let u := "https://example.com/openapi.json" in
  isNotOk (fst (poll None u s)) /\
  watch (snd (poll None u s)) = watch s.
Proof.
  intros s u.
  assert (H : isNotOk (fst (poll None u s))).
  { vm_compute. repeat split; eauto. }
  split; [exact H|].
  apply (probe_failure_leaves_watch scripted merge_union resolve_path
           string_of_list_byte list_byte_of_string None u None s
           {| phase := HEAD;
              request := headRequest merge_union None None u
                           {[ "if-none-match" := "v1" ]};
              result := inr (plain 404 "") |});
    [reflexivity | reflexivity | exact H].
Defined.

(** X13, a server that always sends the same entity tag and body. *)
Lemma first_revalidation_fetches_again_witness :
  let s := fresh [inr (tagged 200 "v1" "a")] in
  let u := "https://example.com/openapi.json" in
  let s1 := {| watch := watch (snd (poll None u s));
               world := [inr (tagged 200 "v1" ""); inr (tagged 200 "v1" "a")];
               log := [] |} in
  fst (poll None u s1)
    = SpecResponse (Some (bytes_of (tagged 200 "v1" "a"))) (resolve_path u) /\
  map phase (added s1 (snd (poll None u s1))) = [HEAD; GET].
Proof.
  intros s u s1.
  destruct (first_revalidation_fetches_again scripted merge_union resolve_path
              string_of_list_byte list_byte_of_string None u None s
              (tagged 200 "v1" "a") [] None None s1
              (tagged 200 "v1" "") [inr (tagged 200 "v1" "a")] "v1"
              (tagged 200 "v1" "a") [])
    as (_ & A & B & _); try reflexivity; try discriminate.
  split; [exact A | exact B].
Defined.

(** * Where the method named by [fetchOptions] and the decoder matter *)

(** C4 as stated does not hold: with [method: 'GET'] in [fetchOptions] the
    probe itself goes out as a GET, so a call that returns not-modified from
    the validators of the probe has issued a GET request. *)
Lemma probe_can_go_out_as_GET :
  let fo := Some {| RequestInit.method := present "GET"; RequestInit.headers := None |} in
  let s := watching {[ "if-none-match" := "v1" ]} (Some true) (Some "{}")
             [inr (tagged 200 "v1" "")] in
  let u := "https://example.com/openapi.json" in
  type (resolve_path u) = url_ /\
  unchanged_by_validators (tagged 200 "v1" "") (watch s) /\
  fst (poll fo u s) = SpecError not_modified (tagged 200 "v1" "") /\
  map phase (log (snd (poll fo u s))) = [HEAD] /\
  map (fun e => sent_method (request e)) (log (snd (poll fo u s))) = ["GET"] /\
  ~ Forall (fun e => sent_method (request e) <> "GET") (log (snd (poll fo u s))).
Proof.
  intros fo s u.
  split; [reflexivity|]. split; [left; split; reflexivity|].
  split; [reflexivity|]. split; [reflexivity|]. split; [reflexivity|].
  intros H. vm_compute in H. apply Forall_inv in H. apply H. reflexivity.
Qed.

(** C5 as stated does not hold: with [method: 'HEAD'] in [fetchOptions] the
    fetch itself goes out as a HEAD request, also when HEAD is recorded as
    unsupported and the probe is not sent. *)
Lemma fetch_can_go_out_as_HEAD :
  let fo := Some {| RequestInit.method := present "HEAD"; RequestInit.headers := None |} in
  let s := watching ∅ (Some false) (Some "a") [inr (plain 200 "a")] in
  let u := "https://example.com/openapi.json" in
  WatchValues.isHeadMethodSupported (watch s) = Some false /\
  map phase (log (snd (poll fo u s))) = [GET] /\
  map (fun e => sent_method (request e)) (log (snd (poll fo u s))) = ["HEAD"] /\
  ~ Forall (fun e => sent_method (request e) <> "HEAD") (log (snd (poll fo u s))).
Proof.
  intros fo s u.
  split; [reflexivity|]. split; [reflexivity|]. split; [reflexivity|].
  intros H. vm_compute in H. apply Forall_inv in H. apply H. reflexivity.
Qed.

(** C8 as stated does not hold: two polls of a server without validators
    that return different bodies give not-modified on the second poll when
    the two bodies decode to the same text, here the bytes xff and xfe, both
    decoded to the replacement character. *)
Lemma differing_bodies_can_give_not_modified :
  let u := "https://example.com/openapi.json" in
  let call :=
    getSpec scripted merge_union resolve_path decode_replacing list_byte_of_string
      None u None in
  let s := fresh [inr (binary 200 [xff]); inr (plain 200 ""); inr (binary 200 [xfe])] in
  let s1 := snd (call s) in
  bytes_of (binary 200 [xff]) <> bytes_of (binary 200 [xfe]) /\
  plain_poll scripted merge_union None None u s (binary 200 [xff]) /\
  plain_poll scripted merge_union None None u s1 (binary 200 [xfe]) /\
  isContent (fst (call s)) /\
  fst (call s1) = SpecError not_modified (binary 200 [xfe]) /\
  ~ isContent (fst (call s1)).
Proof.
  intros u call s s1.
  split; [discriminate|].
  split.
  { exists [inr (plain 200 ""); inr (binary 200 [xfe])]. split; reflexivity. }
  split.
  { exists (plain 200 ""), [inr (binary 200 [xfe])], [].
    repeat split; try reflexivity. left. reflexivity. }
  split; [vm_compute; repeat split; eauto|].
  split; [reflexivity|].
  intros (H & _). vm_compute in H. discriminate H.
Qed.
